(** * Height-banded contextual kerning: a model of [qalamTools/NastaliqKerning.py]

  The two FEZ verbs [NastaliqKerning] and [AtHeight] are embedded as Rocq
  functions.  Methods that read or write attributes of [self], the kern
  cache on disk or the routine objects of the feature file become
  computations in a state-and-exception monad over an explicit [State];
  the font, the glyph classes, the clustering of glyphs and the pairwise
  kern solver are collaborators outside the module and are gathered in the
  class [Externals]. *)

From Stdlib Require Import ZArith QArith_base Ascii String.
From stdpp Require Import base option list gmap strings pretty sorting.

Local Open Scope Z_scope.

(** ** Python built-ins used by the module *)

Module Py.

(** [round(n / d)] for integers [n] and [d > 0]: the quotient is rounded to
    the nearest integer, a tie going to the even neighbour.  The float
    division of the source is exact enough for this on every integer that
    a font holds (|n| < 2^53). *)
Definition round_div (n d : Z) : Z :=
  let q := n `div` d in
  let r := n `mod` d in
  if 2 * r <? d then q
  else if d <? 2 * r then q + 1
  else if Z.even q then q else q + 1.

(** [sum(xs)] *)
Definition sum (xs : list Z) : Z := foldl Z.add 0 xs.

(** [sep.join(xs)] *)
Fixpoint join (sep : string) (xs : list string) : string :=
  match xs with
  | [] => ""
  | x :: xs' =>
      match xs' with
      | [] => x
      | _ :: _ => x +:+ sep +:+ join sep xs'
      end
  end.

(** [itertools.product] over the lists [ls]: the leftmost list varies
    slowest. *)
Fixpoint product {A} (ls : list (list A)) : list (list A) :=
  match ls with
  | [] => [[]]
  | l :: ls' => x ← l; (x ::.) <$> product ls'
  end.

(** [range(hi, -1, -1)] *)
Fixpoint range_down (hi : nat) : list nat :=
  match hi with
  | O => [O]
  | S n => hi :: range_down n
  end.

(** [xs * n] *)
Definition repeat_list {A} (xs : list A) (n : nat) : list A :=
  mjoin (replicate n xs).

(** [sorted(xs)] on strings: ascending code-point order. *)
Definition sorted (xs : list string) : list string :=
  merge_sort (λ a b, Is_true (String.leb a b)) xs.

(** [max(a, b)], [int(q)] (truncation toward zero) *)
Definition max (a b : Z) : Z := if a <? b then b else a.
Definition int (q : Q) : Z := Z.quot (Qnum q) (Z.pos (Qden q)).

(** [c in s] for a character and a string *)
Fixpoint contains (c : ascii) (s : string) : bool :=
  match s with
  | EmptyString => false
  | String c' s' => if decide (c = c') then true else contains c s'
  end.

(** A [dict] keeps its keys in insertion order; assigning to a key that is
    present replaces the value where it stands. *)
Definition dict (K V : Type) : Type := list (K * V).

Fixpoint dget `{EqDecision K} {V} (k : K) (d : dict K V) : option V :=
  match d with
  | [] => None
  | (k', v) :: d' => if decide (k = k') then Some v else dget k d'
  end.

Fixpoint dset `{EqDecision K} {V} (k : K) (v : V) (d : dict K V) : dict K V :=
  match d with
  | [] => [(k, v)]
  | (k', v') :: d' =>
      if decide (k = k') then (k, v) :: d' else (k', v') :: dset k v d'
  end.

(** [xs.pop()], [xs[-1]] and [xs[-1] = x]; each raises [IndexError] on an
    empty list, which is [None] here. *)
Definition pop {A} (xs : list A) : option (list A) :=
  match xs with [] => None | _ => Some (removelast xs) end.

Definition set_last {A} (x : A) (xs : list A) : option (list A) :=
  match xs with [] => None | _ => Some (removelast xs ++ [x]) end.

(** [list(set(xs) - set(ys))] and [list(set(xs) | set(ys))].  Python leaves
    the order of the resulting list unspecified; the members are what the
    module relies on. *)
Definition set_difference (xs ys : list string) : list string :=
  elements ((list_to_set xs : gset string) ∖ list_to_set ys).
Definition set_union (xs ys : list string) : list string :=
  elements ((list_to_set xs : gset string) ∪ list_to_set ys).

End Py.

(** ** Module constants *)

Definition accuracy1 : nat := 3.
Definition rise_quantization : Z := 100.
Definition maximum_rise : Z := 600.
Definition kern_quantization : Z := 10.
Definition maximum_word_length : nat := 5.

Definition quantize (number degree : Z) : Z := degree * Py.round_div number degree.

(** ** Layout rules and routines (the part of [fontFeatures] the module builds) *)

Abbreviation glyph := string.

(** A routine object is known to the rest of the feature file by identity;
    [Ref] is its address in the object store of [State]. *)
Abbreviation Ref := nat.

Record ValueRecord := { xAdvance : option Z }.

Inductive Rule :=
| Positioning (glyphs : list (list glyph)) (valuerecords : list ValueRecord)
| Chaining (input : list (list glyph)) (postcontext : list (list glyph))
           (lookups : list (option (list Ref))).

(** A rise bin of [bin_glyphs_by_metric]: the glyphs of the cluster and its
    representative rise. *)
Abbreviation Bin := (list glyph * Z)%type.

(** [kerntable[right][left] = value] *)
Abbreviation KernTable := (Py.dict glyph (Py.dict glyph Z)).

Record Routine := {
  name : string;
  flags : Z;
  rules : list Rule;
  markFilteringSet : option (list glyph);
  _table : option KernTable;
}.

(** ** Collaborators outside the module *)

Class Externals := {
  (** Python floats, as far as the module touches them: [n / 100.0] and
      [str(x)], which tells two different floats apart. *)
  Float : Type;
  percent : Z → Float;
  str_float : Float → string;
  str_float_inj : Inj (=) (=) str_float;
  (** [qalamTools.determinekern.determine_kern] on the parser's font;
      [None] when the solver raises. *)
  determine_kern : glyph → glyph → Z → Z → Float → option Z;
  (** [glyphtools.bin_glyphs_by_metric(font, glyphs, "rise", bincount)] *)
  bin_glyphs_by_metric : list glyph → nat → option (list Bin);
  (** [parser.fontfeatures.namedClasses] *)
  namedClasses : gmap string (list glyph);
  (** [font.glyphs[g].layers[0].rsb] and [.lsb] *)
  glyph_rsb : glyph → option Z;
  glyph_lsb : glyph → option Z;
  (** [parser.fontfeatures.routineNamed] *)
  routineNamed : string → option Ref;
}.

(** ** State of a run *)

Record KernArgs `{Externals} := {
  left_glyph : glyph;
  right_glyph : glyph;
  target_closeness : Z;
  at_height : Z;
  tuck : Float;
}.

Record State `{Externals} := {
  (** attributes of the verb object *)
  distance_at_closest : Z;
  maxtuck : Float;
  ink_to_ink_routines : gmap Z Ref;
  inits : list glyph;
  isols : list glyph;
  isols_finas : list glyph;
  kern_at_rise : gmap Z Ref;
  (** the shelf [kerncache.db]: its entries, and how often it was opened
      and closed *)
  shelve : gmap string Z;
  shelf_opens : nat;
  shelf_closes : nat;
  (** every call made to the solver, latest first *)
  solver_calls : list KernArgs;
  (** the routine objects, and those registered with the feature file *)
  heap : list Routine;
  ff_routines : list Ref;
}.

(** Assignments to the attributes, one function per attribute written. *)

Section setters.
  Context `{Externals}.

Definition set_parameters (d : Z) (mt : Float) (s : State) : State :=
  {| distance_at_closest := d; maxtuck := mt;
     ink_to_ink_routines := ink_to_ink_routines s; inits := inits s;
     isols := isols s; isols_finas := isols_finas s;
     kern_at_rise := kern_at_rise s; shelve := shelve s;
     shelf_opens := shelf_opens s; shelf_closes := shelf_closes s;
     solver_calls := solver_calls s; heap := heap s;
     ff_routines := ff_routines s |}.

Definition set_ink_to_ink_routines (m : gmap Z Ref) (s : State) : State :=
  {| distance_at_closest := distance_at_closest s; maxtuck := maxtuck s;
     ink_to_ink_routines := m; inits := inits s;
     isols := isols s; isols_finas := isols_finas s;
     kern_at_rise := kern_at_rise s; shelve := shelve s;
     shelf_opens := shelf_opens s; shelf_closes := shelf_closes s;
     solver_calls := solver_calls s; heap := heap s;
     ff_routines := ff_routines s |}.

Definition set_inits (gs : list glyph) (s : State) : State :=
  {| distance_at_closest := distance_at_closest s; maxtuck := maxtuck s;
     ink_to_ink_routines := ink_to_ink_routines s; inits := gs;
     isols := isols s; isols_finas := isols_finas s;
     kern_at_rise := kern_at_rise s; shelve := shelve s;
     shelf_opens := shelf_opens s; shelf_closes := shelf_closes s;
     solver_calls := solver_calls s; heap := heap s;
     ff_routines := ff_routines s |}.

Definition set_isols (gs : list glyph) (s : State) : State :=
  {| distance_at_closest := distance_at_closest s; maxtuck := maxtuck s;
     ink_to_ink_routines := ink_to_ink_routines s; inits := inits s;
     isols := gs; isols_finas := isols_finas s;
     kern_at_rise := kern_at_rise s; shelve := shelve s;
     shelf_opens := shelf_opens s; shelf_closes := shelf_closes s;
     solver_calls := solver_calls s; heap := heap s;
     ff_routines := ff_routines s |}.

Definition set_isols_finas (gs : list glyph) (s : State) : State :=
  {| distance_at_closest := distance_at_closest s; maxtuck := maxtuck s;
     ink_to_ink_routines := ink_to_ink_routines s; inits := inits s;
     isols := isols s; isols_finas := gs;
     kern_at_rise := kern_at_rise s; shelve := shelve s;
     shelf_opens := shelf_opens s; shelf_closes := shelf_closes s;
     solver_calls := solver_calls s; heap := heap s;
     ff_routines := ff_routines s |}.

Definition set_kern_at_rise (m : gmap Z Ref) (s : State) : State :=
  {| distance_at_closest := distance_at_closest s; maxtuck := maxtuck s;
     ink_to_ink_routines := ink_to_ink_routines s; inits := inits s;
     isols := isols s; isols_finas := isols_finas s;
     kern_at_rise := m; shelve := shelve s;
     shelf_opens := shelf_opens s; shelf_closes := shelf_closes s;
     solver_calls := solver_calls s; heap := heap s;
     ff_routines := ff_routines s |}.

Definition set_shelve (m : gmap string Z) (s : State) : State :=
  {| distance_at_closest := distance_at_closest s; maxtuck := maxtuck s;
     ink_to_ink_routines := ink_to_ink_routines s; inits := inits s;
     isols := isols s; isols_finas := isols_finas s;
     kern_at_rise := kern_at_rise s; shelve := m;
     shelf_opens := shelf_opens s; shelf_closes := shelf_closes s;
     solver_calls := solver_calls s; heap := heap s;
     ff_routines := ff_routines s |}.

Definition count_open (s : State) : State :=
  {| distance_at_closest := distance_at_closest s; maxtuck := maxtuck s;
     ink_to_ink_routines := ink_to_ink_routines s; inits := inits s;
     isols := isols s; isols_finas := isols_finas s;
     kern_at_rise := kern_at_rise s; shelve := shelve s;
     shelf_opens := S (shelf_opens s); shelf_closes := shelf_closes s;
     solver_calls := solver_calls s; heap := heap s;
     ff_routines := ff_routines s |}.

Definition count_close (s : State) : State :=
  {| distance_at_closest := distance_at_closest s; maxtuck := maxtuck s;
     ink_to_ink_routines := ink_to_ink_routines s; inits := inits s;
     isols := isols s; isols_finas := isols_finas s;
     kern_at_rise := kern_at_rise s; shelve := shelve s;
     shelf_opens := shelf_opens s; shelf_closes := S (shelf_closes s);
     solver_calls := solver_calls s; heap := heap s;
     ff_routines := ff_routines s |}.

Definition log_solver_call (a : KernArgs) (s : State) : State :=
  {| distance_at_closest := distance_at_closest s; maxtuck := maxtuck s;
     ink_to_ink_routines := ink_to_ink_routines s; inits := inits s;
     isols := isols s; isols_finas := isols_finas s;
     kern_at_rise := kern_at_rise s; shelve := shelve s;
     shelf_opens := shelf_opens s; shelf_closes := shelf_closes s;
     solver_calls := a :: solver_calls s; heap := heap s;
     ff_routines := ff_routines s |}.

Definition push_object (o : Routine) (s : State) : State :=
  {| distance_at_closest := distance_at_closest s; maxtuck := maxtuck s;
     ink_to_ink_routines := ink_to_ink_routines s; inits := inits s;
     isols := isols s; isols_finas := isols_finas s;
     kern_at_rise := kern_at_rise s; shelve := shelve s;
     shelf_opens := shelf_opens s; shelf_closes := shelf_closes s;
     solver_calls := solver_calls s; heap := heap s ++ [o];
     ff_routines := ff_routines s |}.

Definition push_reference (t : Ref) (s : State) : State :=
  {| distance_at_closest := distance_at_closest s; maxtuck := maxtuck s;
     ink_to_ink_routines := ink_to_ink_routines s; inits := inits s;
     isols := isols s; isols_finas := isols_finas s;
     kern_at_rise := kern_at_rise s; shelve := shelve s;
     shelf_opens := shelf_opens s; shelf_closes := shelf_closes s;
     solver_calls := solver_calls s; heap := heap s;
     ff_routines := ff_routines s ++ [t] |}.

End setters.

(** ** The monad: state threaded through, an exception ends the run and
    leaves the state it was raised in *)

Inductive Res `{Externals} (A : Type) : Type :=
| Ok (a : A) (s : State)
| Err (s : State).
Arguments Ok {_ _} a s.
Arguments Err {_ _} s.

Definition M `{Externals} (A : Type) : Type := State → Res A.

#[global] Instance M_ret `{Externals} : MRet M := λ A a s, Ok a s.
#[global] Instance M_bind `{Externals} : MBind M := λ A B f m s,
  match m s with
  | Ok a s' => f a s'
  | Err s' => Err s'
  end.

Section monad.
  Context `{Externals}.

Definition raise {A} : M A := λ s, Err s.
Definition get {A} (f : State → A) : M A := λ s, Ok (f s) s.
Definition modify (f : State → State) : M () := λ s, Ok () (f s).

(** a lookup or call that raises when it has no result *)
Definition or_raise {A} (o : option A) : M A :=
  match o with
  | Some a => mret a
  | None => raise
  end.

(** [for x in xs: body], with the variables the body assigns as [acc] *)
Fixpoint for_each {A B} (xs : list A) (acc : B) (body : B → A → M B) : M B :=
  match xs with
  | [] => mret acc
  | x :: xs' => acc' ← body acc x; for_each xs' acc' body
  end.

(** A routine enters the object store when it is first shared: there it
    gets the identity by which rules and caches refer to it. *)
Definition alloc (o : Routine) : M Ref :=
  h ← get heap;
  modify (push_object o);;
  mret (length h).

(** [parser.fontfeatures.referenceRoutine(o)] *)
Definition referenceRoutine (o : Routine) : M Ref :=
  t ← alloc o;
  modify (push_reference t);;
  mret t.

(** [shelve.open("kerncache.db")] and [self.shelve.close()] *)
Definition shelve_open : M () := modify count_open.
Definition shelve_close : M () := modify count_close.

End monad.

(** ** class NastaliqKerning *)

Section NastaliqKerning.
  Context `{Externals}.

(** the call [determine_kern(font, glyph1, glyph2, ...)], recorded *)
Definition call_determine_kern (g1 g2 : glyph) (td h : Z) (mt : Float) : M Z :=
  modify (log_solver_call
            {| left_glyph := g1; right_glyph := g2; target_closeness := td;
               at_height := h; tuck := mt |});;
  or_raise (determine_kern g1 g2 td h mt).

Definition cache_key (g1 g2 : glyph) (td h : Z) (mt : Float) : string :=
  Py.join "/" [g1; g2; pretty td; pretty h; str_float mt].

Definition determine_kern_cached
    (g1 g2 : glyph) (td h : Z) (mt : Float) : M Z :=
  let key := cache_key g1 g2 td h mt in
  sh ← get shelve;
  match sh !! key with
  | Some v => mret v
  | None =>
      result ← call_determine_kern g1 g2 td h mt;
      sh ← get shelve;
      modify (set_shelve (<[key := result]> sh));;
      mret result
  end.

(** the tapered distance of [ink_to_ink_at]; 0.5 and 0.2 are taken as the
    exact fractions *)
Definition tapered_distance (d r : Z) : Q :=
  let r_distance := inject_Z d in
  let r_distance :=
    if decide (r = 100) then Qmult r_distance (Qmake 1 2) else r_distance in
  let r_distance :=
    if decide (r = 200) then Qmult r_distance (Qmake 1 5) else r_distance in
  let r_distance :=
    if decide (r = 300) then Qmult r_distance (Qmake 1 5) else r_distance in
  r_distance.

(** body of the inner loop of [ink_to_ink_at] *)
Definition ink_to_ink_pair (r_distance : Q) (right : glyph)
    (rules : list Rule) (left : glyph) : M (list Rule) :=
  rsb ← or_raise (glyph_rsb left);
  let right_of_left := Py.max rsb 0 in
  lsb ← or_raise (glyph_lsb right);
  let left_of_right := Py.max lsb 0 in
  let dist :=
    Py.int (Qminus r_distance (inject_Z (right_of_left + left_of_right))) in
  if decide (dist = 0) then mret rules
  else mret (rules ++ [Positioning [[right]; [left]]
                         [ {| xAdvance := None |};
                           {| xAdvance := Some dist |} ]]).

Definition ink_to_ink_at (r : Z) : M Ref :=
  cache ← get ink_to_ink_routines;
  match cache !! r with
  | Some t => mret t
  | None =>
      d ← get distance_at_closest;
      let r_distance := tapered_distance d r in
      rights ← get isols_finas;
      ini ← get inits;
      iso ← get isols;
      ink_rules ← for_each rights [] (λ rules right,
        for_each (ini ++ iso) rules (ink_to_ink_pair r_distance right));
      t ← referenceRoutine
            {| name := "ink_to_ink_" +:+ pretty r; flags := Z.lor 8 4;
               rules := ink_rules; markFilteringSet := None;
               _table := None |};
      cache ← get ink_to_ink_routines;
      modify (set_ink_to_ink_routines (<[r := t]> cache));;
      mret t
  end.

(** body of the inner loop of [generate_kern_table_for_rise] *)
Definition kern_pair (d r : Z) (mt : Float) (end_of_previous_word : glyph)
    (kerntable : KernTable) (initial : glyph) : M KernTable :=
  kern ← determine_kern_cached initial end_of_previous_word d r mt;
  if kern <? -10 then
    row ← or_raise (Py.dget end_of_previous_word kerntable);
    mret (Py.dset end_of_previous_word
            (Py.dset initial (quantize kern kern_quantization) row)
            kerntable)
  else mret kerntable.

Definition kern_row (d r : Z) (mt : Float) (ends : list glyph)
    (kerntable : KernTable) (end_of_previous_word : glyph) : M KernTable :=
  let kerntable := Py.dset end_of_previous_word [] kerntable in
  for_each (Py.sorted ends) kerntable (kern_pair d r mt end_of_previous_word).

(** the two loops over [kerntable.items()] *)
Definition kern_rules (kerntable : KernTable) : list Rule :=
  '(left_, kerns) ← kerntable;
  '(right_, value) ← kerns;
  [Positioning [[left_]; [right_]]
     [ {| xAdvance := None |}; {| xAdvance := Some value |} ]].

Definition generate_kern_table_for_rise (r : Z) : M Ref :=
  cache ← get kern_at_rise;
  match cache !! r with
  | Some t => mret t
  | None =>
      let r := quantize r rise_quantization in
      ini ← get inits;
      iso ← get isols;
      let ends := if 0 <? r then ini else ini ++ iso in
      mt ← get maxtuck;
      rights ← get isols_finas;
      d ← get distance_at_closest;
      kerntable ← for_each rights [] (kern_row d r mt ends);
      abovemarks ← or_raise (namedClasses !! "all_above_marks");
      kernroutine ← referenceRoutine
            {| name := "kern_at_" +:+ pretty r; flags := Z.lor 8 4;
               rules := kern_rules kerntable;
               markFilteringSet := Some abovemarks;
               _table := Some kerntable |};
      if 400 <=? r then
        cache ← get kern_at_rise;
        modify (set_kern_at_rise (<[r := kernroutine]> cache));;
        mret kernroutine
      else
        rights ← get isols_finas;
        ink ← ink_to_ink_at r;
        let branch1 :=
          Chaining [rights; ["space.urdu"]; ends] []
                   [Some [ink]; Some []; Some []] in
        rights ← get isols_finas;
        let branch2 :=
          Chaining [rights; ends] []
                   [Some [kernroutine]; Some []; Some []] in
        dispatch ← alloc
            {| name := "dispatch_" +:+ pretty r; flags := 8;
               rules := [branch1; branch2]; markFilteringSet := None;
               _table := None |};
        cache ← get kern_at_rise;
        modify (set_kern_at_rise (<[r := dispatch]> cache));;
        mret dispatch
  end.

Definition blockers : list glyph := ["AINf1"; "JIMf1"].

(** the aggregate rise of a sequence of bins *)
Definition tail_rise (postcontext_plus_rise : list Bin) : Z :=
  quantize (Py.sum (snd <$> postcontext_plus_rise)) rise_quantization.

(** body of the loop over [all_options] in [NastaliqKerning.action] *)
Definition sequence_rules (i : nat) (rules : list Rule)
    (postcontext_plus_rise : list Bin) : M (list Rule) :=
  let word_tail_rise := tail_rise postcontext_plus_rise in
  if word_tail_rise <? 0 then mret rules
  else
    let postcontext := reverse (fst <$> postcontext_plus_rise) in
    '(word_tail_rise, postcontext) ←
      (if maximum_rise <=? word_tail_rise then
         if decide (i = maximum_word_length) then
           postcontext ← or_raise (Py.pop postcontext);
           mret (maximum_rise, postcontext)
         else mret (maximum_rise, postcontext)
       else mret (word_tail_rise, postcontext));
    rights ← get isols_finas;
    let target := [rights] in
    t ← generate_kern_table_for_rise word_tail_rise;
    let lookups := [Some [t]] in
    innermost ← or_raise (last postcontext);
    '(postcontext, do_blockers) ←
      (if existsb (λ blocker, bool_decide (blocker ∈ innermost)) blockers
       then
         postcontext ← or_raise
           (Py.set_last (Py.set_difference innermost blockers) postcontext);
         mret (postcontext, true)
       else mret (postcontext, false));
    ini ← get inits;
    let rules := rules ++ [Chaining target (ini :: postcontext) lookups] in
    '(postcontext, rules) ←
      (if bool_decide (1 < length postcontext)%nat && do_blockers then
         postcontext ← or_raise (Py.set_last blockers postcontext);
         ini ← get inits;
         mret (postcontext,
               rules ++ [Chaining target (ini :: postcontext) lookups])
       else mret (postcontext, rules));
    if (400 <=? word_tail_rise) && bool_decide (4 < i)%nat then
      postcontext ← or_raise (Py.set_last ["BARI_YEf1"] postcontext);
      ini ← get inits;
      mret (rules ++ [Chaining target (ini :: postcontext) lookups])
    else mret rules.

(** the sequences of length [i]: one final bin, then [i] medial bins *)
Definition all_options (binned_finas binned_medis : list Bin) (i : nat)
    : list (list Bin) :=
  let postcontext_options :=
    [binned_finas] ++ Py.repeat_list [binned_medis] i in
  Py.product postcontext_options.

Definition NastaliqKerning_action (arg0 arg1 : Z) : M (list Routine) :=
  modify (set_parameters arg0 (percent arg1));;
  modify (set_ink_to_ink_routines ∅);;
  shelve_open;;
  ini ← or_raise (namedClasses !! "inits");
  modify (set_inits ini);;
  medis ← or_raise (namedClasses !! "medis");
  bariye ← or_raise (namedClasses !! "bariye");
  all_isols ← or_raise (namedClasses !! "isols");
  modify (set_isols (filter (λ x, x ∉ bariye) all_isols));;
  all_finas ← or_raise (namedClasses !! "finas");
  let finas := filter (λ x, x ∉ bariye) all_finas in
  iso ← get isols;
  modify (set_isols_finas (Py.set_union (iso ++ finas) bariye));;
  binned_medis ← or_raise (bin_glyphs_by_metric medis accuracy1);
  binned_finas ← or_raise (bin_glyphs_by_metric finas accuracy1);
  modify (set_kern_at_rise ∅);;
  main_rules ← for_each (Py.range_down maximum_word_length) [] (λ rules i,
    for_each (all_options binned_finas binned_medis i) rules
             (sequence_rules i));
  rights ← get isols_finas;
  t ← generate_kern_table_for_rise 0;
  iso ← get isols;
  let main_rules := main_rules ++ [Chaining [rights] [iso] [Some [t]]] in
  shelve_close;;
  mret [ {| name := "NastaliqKerning"; flags := Z.lor 4 8;
            rules := main_rules; markFilteringSet := None;
            _table := None |} ].

End NastaliqKerning.

(** ** class AtHeight

  The verb keeps no cache and builds no table: it either raises ([None])
  or returns its one routine. *)

Section AtHeight.
  Context `{Externals}.

(** body of the loop over [all_options] in [AtHeight.action] *)
Definition at_height_rule (height_lower height_upper : Z)
    (target_routine : Ref) (rights ini : list glyph) (rules : list Rule)
    (postcontext_plus_rise : list Bin) : list Rule :=
  let word_tail_rise :=
    quantize (Py.sum (snd <$> postcontext_plus_rise)) rise_quantization in
  let postcontext := reverse (fst <$> postcontext_plus_rise) in
  if negb ((height_lower <=? word_tail_rise)
           && (word_tail_rise <=? height_upper))
  then rules
  else
    let target := [rights; ini] in
    let lookups :=
      [Some [target_routine]] ++ replicate (length target - 1) None in
    rules ++ [Chaining target postcontext lookups].

Definition AtHeight_action (height_lower height_upper : Z)
    (target_name : string) : option (list Routine) :=
  target_routine ← routineNamed target_name;
  ini ← namedClasses !! "inits";
  medis ← namedClasses !! "medis";
  iso ← namedClasses !! "isols";
  finas ← namedClasses !! "finas";
  let rights := iso ++ finas in
  binned_medis ← bin_glyphs_by_metric medis accuracy1;
  binned_finas ← bin_glyphs_by_metric finas accuracy1;
  let at_rules :=
    foldl (λ rules i,
             foldl (at_height_rule height_lower height_upper
                                   target_routine rights ini)
                   rules
                   (Py.product ([binned_finas]
                                ++ Py.repeat_list [binned_medis] i)))
          [] (Py.range_down maximum_word_length) in
  Some [ {| name := "At_" +:+ pretty height_lower +:+ "_"
                    +:+ pretty height_upper +:+ "_" +:+ target_name;
            flags := Z.lor 4 8; rules := at_rules;
            markFilteringSet := None; _table := None |} ].

End AtHeight.

(** ** Vocabulary of the statements *)

Section vocabulary.
Context `{Externals}.

(** [keeps R m]: whether [m] returns or raises, the state it ends in is
    related by [R] to the state it started in. *)
Definition keeps {A} (R : relation State) (m : M A) : Prop :=
  ∀ s, match m s with Ok _ s' | Err s' => R s s' end.

(** The shelf was neither opened nor closed. *)
Definition same_shelf (s s' : State) : Prop :=
  shelf_opens s' = shelf_opens s ∧ shelf_closes s' = shelf_closes s.

(** The parameters and the glyph classes of the verb object are unchanged. *)
Definition same_self (s s' : State) : Prop :=
  distance_at_closest s' = distance_at_closest s
  ∧ maxtuck s' = maxtuck s
  ∧ inits s' = inits s
  ∧ isols s' = isols s
  ∧ isols_finas s' = isols_finas s.

(** Nothing is taken away: routine objects stay where they are, and the
    entries of the shelf and of the ink-to-ink cache stay as they are. *)
Definition grows (s s' : State) : Prop :=
  heap s `prefix_of` heap s'
  ∧ shelve s ⊆ shelve s'
  ∧ ink_to_ink_routines s ⊆ ink_to_ink_routines s'.

(** Only the shelf and the solver log may differ. *)
Definition same_objects (s s' : State) : Prop :=
  heap s' = heap s
  ∧ ff_routines s' = ff_routines s
  ∧ kern_at_rise s' = kern_at_rise s
  ∧ ink_to_ink_routines s' = ink_to_ink_routines s.

(** [m] closes the shelf when it returns and leaves it alone when it raises. *)
Definition closes_on_return {A} (m : M A) : Prop :=
  ∀ s, match m s with
       | Ok _ s' => shelf_opens s' = shelf_opens s
                    ∧ shelf_closes s' = S (shelf_closes s)
       | Err s' => same_shelf s s'
       end.

(** What a run returned, if it returned, and the state it ended in. *)
Definition returned {A} (r : Res A) : option A :=
  match r with Ok a _ => Some a | Err _ => None end.

Definition final_state {A} (r : Res A) : State :=
  match r with Ok _ s | Err s => s end.

Definition succeeded {A} (r : Res A) : bool :=
  match r with Ok _ _ => true | Err _ => false end.

(** The rise a sequence of bins is filed under, and the context it is
    emitted with, in the main loop of [NastaliqKerning.action]. *)
Definition clamped_rise (pp : list Bin) : Z :=
  if maximum_rise <=? tail_rise pp then maximum_rise else tail_rise pp.

Definition kept_context (i : nat) (pp : list Bin) : list (list glyph) :=
  let postcontext := reverse (fst <$> pp) in
  if (maximum_rise <=? tail_rise pp) && bool_decide (i = maximum_word_length)
  then removelast postcontext else postcontext.

(** The group holds one of the blocking glyphs. *)
Definition blocked (g : list glyph) : bool :=
  existsb (λ blocker, bool_decide (blocker ∈ g)) blockers.

(** The rules that the body of the main loop appends for a sequence filed
    under [rise], with context [ctx] whose innermost group is [g], and
    kern table [t]. *)
Definition emitted (i : nat) (rise : Z) (ctx : list (list glyph))
    (g rights ini : list glyph) (t : Ref) : list Rule :=
  let rule_with innermost :=
    Chaining [rights] (ini :: removelast ctx ++ [innermost]) [Some [t]] in
  [rule_with (if blocked g then Py.set_difference g blockers else g)]
  ++ (if bool_decide (1 < length ctx)%nat && blocked g
      then [rule_with blockers] else [])
  ++ (if (400 <=? rise) && bool_decide (4 < i)%nat
      then [rule_with ["BARI_YEf1"]] else []).

(** the two loops of [ink_to_ink_at] *)
Definition ink_to_ink_rules (r : Z) (s : State) : M (list Rule) :=
  for_each (isols_finas s) [] (λ rules right,
    for_each (inits s ++ isols s) rules
      (ink_to_ink_pair (tapered_distance (distance_at_closest s) r) right)).

Definition ink_to_ink_routine (r : Z) (ink_rules : list Rule) : Routine :=
  {| name := "ink_to_ink_" +:+ pretty r; flags := Z.lor 8 4;
     rules := ink_rules; markFilteringSet := None; _table := None |}.

(** the loops of [generate_kern_table_for_rise] for quantized rise [q] *)
Definition left_candidates (s : State) (q : Z) : list glyph :=
  if 0 <? q then inits s else inits s ++ isols s.

Definition build_kerntable (q : Z) (s : State) : M KernTable :=
  for_each (isols_finas s) []
    (kern_row (distance_at_closest s) q (maxtuck s) (left_candidates s q)).

Definition kern_routine (q : Z) (kerntable : KernTable)
    (abovemarks : list glyph) : Routine :=
  {| name := "kern_at_" +:+ pretty q; flags := Z.lor 8 4;
     rules := kern_rules kerntable; markFilteringSet := Some abovemarks;
     _table := Some kerntable |}.

Definition dispatch_routine (q : Z) (rights ends : list glyph)
    (ink kernroutine : Ref) : Routine :=
  {| name := "dispatch_" +:+ pretty q; flags := 8;
     rules := [ Chaining [rights; ["space.urdu"]; ends] []
                  [Some [ink]; Some []; Some []];
                Chaining [rights; ends] []
                  [Some [kernroutine]; Some []; Some []] ];
     markFilteringSet := None; _table := None |}.

Definition is_kern_table (q : Z) (o : Routine) : Prop :=
  ∃ kerntable abovemarks, o = kern_routine q kerntable abovemarks.

Definition is_dispatcher (s : State) (q : Z) (o : Routine) : Prop :=
  ∃ ink kernroutine okern,
    o = dispatch_routine q (isols_finas s) (left_candidates s q)
          ink kernroutine
    ∧ ink_to_ink_routines s !! q = Some ink
    ∧ heap s !! kernroutine = Some okern
    ∧ is_kern_table q okern.

Definition cache_ok (s : State) : Prop :=
  ∀ k t, kern_at_rise s !! k = Some t →
    quantize k rise_quantization = k
    ∧ ∃ o, heap s !! t = Some o
           ∧ if 400 <=? k then is_kern_table k o else is_dispatcher s k o.

(** The routine has exactly two rules, both of them chaining rules. *)
Definition two_branches (o : Routine) : bool :=
  match rules o with
  | [Chaining _ _ _; Chaining _ _ _] => true
  | _ => false
  end.

(** the adjustment of [ink_to_ink_at] for a pair, from the right side
    bearing of the left glyph and the left side bearing of the right glyph *)
Definition ink_distance (d r rsb_of_left lsb_of_right : Z) : Z :=
  Py.int (Qminus (tapered_distance d r)
            (inject_Z (Py.max rsb_of_left 0 + Py.max lsb_of_right 0))).

Definition ink_rule (right left : glyph) (dist : Z) : Rule :=
  Positioning [[right]; [left]]
    [ {| xAdvance := None |}; {| xAdvance := Some dist |} ].

(** the rules one pair contributes *)
Definition ink_pair_rules (d r : Z) (right left : glyph) : list Rule :=
  match glyph_rsb left, glyph_lsb right with
  | Some rsb, Some lsb =>
      let dist := ink_distance d r rsb lsb in
      if decide (dist = 0) then [] else [ink_rule right left dist]
  | _, _ => []
  end.

(** C6 in the words of the specification: the bearings are taken from the
    other side of each glyph, and nothing is truncated *)
Definition spec_ink_distance (d r : Z) (right left : glyph) : option Q :=
  rsb ← glyph_rsb right;
  lsb ← glyph_lsb left;
  Some (Qminus (tapered_distance d r)
          (inject_Z (Py.max rsb 0 + Py.max lsb 0))).

(** the rise lies in the closed interval of [AtHeight] *)
Definition in_band (low high rise : Z) : bool :=
  (low <=? rise) && (rise <=? high).

(** the rule [AtHeight] emits for a context *)
Definition at_height_chain (t : Ref) (rights ini : list glyph)
    (ctx : list (list glyph)) : Rule :=
  Chaining [rights; ini] ctx [Some [t]; None].

(** C8 in the words of the specification: the (context, rise) pairs of the
    main compiler, negative aggregates discarded, rises clamped at the cap
    and the final bin dropped at the maximum length ... *)
Definition spec_enumeration (binned_finas binned_medis : list Bin)
    : list (list (list glyph) * Z) :=
  i ← Py.range_down maximum_word_length;
  pp ← all_options binned_finas binned_medis i;
  if tail_rise pp <? 0 then [] else [(kept_context i pp, clamped_rise pp)].

(** ... of which those in the band get a rule *)
Definition spec_AtHeight_rules (low high : Z) (target_name : string)
    : option (list Rule) :=
  t ← routineNamed target_name;
  ini ← namedClasses !! "inits";
  medis ← namedClasses !! "medis";
  iso ← namedClasses !! "isols";
  finas ← namedClasses !! "finas";
  binned_medis ← bin_glyphs_by_metric medis accuracy1;
  binned_finas ← bin_glyphs_by_metric finas accuracy1;
  Some ('(ctx, rise) ← spec_enumeration binned_finas binned_medis;
        if in_band low high rise
        then [at_height_chain t (iso ++ finas) ini ctx] else []).

(** What the kern table records for a pair, from the adjustment the
    shelf holds for it. *)
Definition recorded (d r : Z) (mt : Float) (sh : gmap string Z)
    (initial e : glyph) : option Z :=
  kern ← sh !! cache_key initial e d r mt;
  if kern <? -10 then Some (quantize kern kern_quantization) else None.

(** The row of [e] is complete for the left candidates [ends]. *)
Definition row_complete (d r : Z) (mt : Float) (ends : list glyph)
    (kt : KernTable) (sh : gmap string Z) (e : glyph) : Prop :=
  (∀ i, i ∈ ends → is_Some (sh !! cache_key i e d r mt))
  ∧ ∃ row, Py.dget e kt = Some row
           ∧ ∀ i, Py.dget i row
                  = if decide (i ∈ ends) then recorded d r mt sh i e
                    else None.

(** Every entry of the shelf in [s'] was there in [s] or is the solver's
    answer for a pair that [P] admits. *)
Definition solved_for (d r : Z) (mt : Float) (P : glyph → glyph → Prop)
    (s s' : State) : Prop :=
  ∀ k v, shelve s' !! k = Some v →
    shelve s !! k = Some v
    ∨ ∃ i e, P i e ∧ k = cache_key i e d r mt
             ∧ determine_kern i e d r mt = Some v.

(** The rises a kern table is filed under in a run of
    [NastaliqKerning.action]. *)
Definition rises : list Z := [0; 100; 200; 300; 400; 500; 600].

(** The rules that the main loop of [NastaliqKerning.action] appends for
    the sequence [pp] of length [i], the kern tables being those of
    [tables]. *)
Definition sequence_contribution (i : nat) (pp : list Bin)
    (tables : gmap Z Ref) (rights ini : list glyph) : list Rule :=
  if tail_rise pp <? 0 then []
  else match tables !! clamped_rise pp, last (kept_context i pp) with
       | Some t, Some g =>
           emitted i (clamped_rise pp) (kept_context i pp) g rights ini t
       | _, _ => []
       end.

(** No entry of the shelf is removed or overwritten. *)
Definition shelf_kept (s s' : State) : Prop := shelve s ⊆ shelve s'.

(** Neither the solver nor the shelf was touched. *)
Definition same_solver (s s' : State) : Prop :=
  solver_calls s' = solver_calls s ∧ shelve s' = shelve s.

(** The shelf key of a call made to the solver. *)
Definition call_key (c : KernArgs) : string :=
  cache_key (left_glyph c) (right_glyph c) (target_closeness c)
            (at_height c) (tuck c).

(** No two calls made to the solver were for the same key, and none was
    for a key that the shelf [sh0] held. *)
Definition called_once (sh0 : gmap string Z) (s : State) : Prop :=
  NoDup (call_key <$> solver_calls s)
  ∧ ∀ c, c ∈ solver_calls s → sh0 !! call_key c = None.

(** ... and the shelf, which has grown from [sh0], holds an answer to each
    of them. *)
Definition answers_kept (sh0 : gmap string Z) (s : State) : Prop :=
  called_once sh0 s
  ∧ sh0 ⊆ shelve s
  ∧ ∀ c, c ∈ solver_calls s → is_Some (shelve s !! call_key c).

(** [preserves I J m]: from a state in [I], [m] returns in a state in [I]
    or raises in a state in [J]. *)
Definition preserves {A} (I J : State → Prop) (m : M A) : Prop :=
  ∀ s, I s → match m s with Ok _ s' => I s' | Err s' => J s' end.

(** No key is held twice, in the table or in a row. *)
Definition table_wf (kt : KernTable) : Prop :=
  NoDup kt.*1 ∧ ∀ e row, (e, row) ∈ kt → NoDup row.*1.

End vocabulary.

(** ** A small font to run the model on *)

Module Sample.

Definition classes : gmap string (list glyph) :=
  list_to_map
    [ ("inits", ["BEi1"; "JIMi1"]); ("medis", ["BEm1"]);
      ("isols", ["ALIFu1"]); ("finas", ["AINf1"; "BEf1"; "NUNf1"]);
      ("bariye", ["BARI_YEf1"]); ("all_above_marks", ["HAMZA_ABOVE"]) ].

(** one cluster per class: the finals rise by 100, the medials by
    [medial_rise] *)
Definition bins (medial_rise : Z) (gs : list glyph) (bincount : nat)
    : option (list Bin) :=
  match gs with
  | [] => None
  | g :: _ => Some [(gs, if decide (g = "BEm1") then medial_rise else 100)]
  end.

(** a solver that finds [BEi1] 5 units too far from [ALIFu1] and every
    other pair 15 units too far *)
Definition solver (fails : bool) (g1 g2 : glyph) (td h : Z) (mt : string)
    : option Z :=
  if fails then None
  else if decide (g1 = "BEi1" ∧ g2 = "ALIFu1") then Some (-5)
  else Some (-15).

Definition rsb (g : glyph) : option Z :=
  Some (if decide (g = "BEi1") then 30 else 0).
Definition lsb (g : glyph) : option Z :=
  Some (if decide (g = "ALIFu1") then 5 else 0).

(** floats are stood for by their decimal rendering *)
Definition env_with (medial_rise : Z) (solver_fails : bool) : Externals :=
  {| Float := string;
     percent := λ n, pretty n +:+ "e-2";
     str_float := id;
     str_float_inj := λ x y Heq, Heq;
     determine_kern := solver solver_fails;
     bin_glyphs_by_metric := bins medial_rise;
     namedClasses := classes;
     glyph_rsb := rsb;
     glyph_lsb := lsb;
     routineNamed := λ n, if decide (n = "DotAvoidance") then Some 0%nat
                          else None |}.

Definition env : Externals := env_with 150 false.
Definition env_low : Externals := env_with 60 false.
Definition env_failing : Externals := env_with 150 true.

(** the verb object before [action] runs, the shelf empty *)
Definition fresh `{Externals} (mt : Float) : State :=
  {| distance_at_closest := 0; maxtuck := mt; ink_to_ink_routines := ∅;
     inits := []; isols := []; isols_finas := []; kern_at_rise := ∅;
     shelve := ∅; shelf_opens := 0; shelf_closes := 0; solver_calls := [];
     heap := []; ff_routines := [] |}.

(** the verb object after the preamble of [action]: classes read,
    parameters 50 and 40% *)
Definition ready `{Externals} : State :=
  {| distance_at_closest := 50; maxtuck := percent 40;
     ink_to_ink_routines := ∅;
     inits := ["BEi1"; "JIMi1"]; isols := ["ALIFu1"];
     isols_finas := ["AINf1"; "BEf1"; "NUNf1"; "ALIFu1"; "BARI_YEf1"];
     kern_at_rise := ∅;
     shelve := ∅; shelf_opens := 1; shelf_closes := 0; solver_calls := [];
     heap := []; ff_routines := [] |}.

(** a word of a final and five medials, 850 units high with medials of
    150 and 400 units high with medials of 60 *)
Definition tall_word : list Bin :=
  (["AINf1"; "BEf1"; "NUNf1"], 100) :: replicate 5 (["BEm1"], 150).
Definition low_word : list Bin :=
  (["AINf1"; "BEf1"; "NUNf1"], 100) :: replicate 5 (["BEm1"], 60).

(** the font of [env] without the glyph class [c] *)
Definition env_lacking (c : string) : Externals :=
  {| Float := string;
     percent := λ n, pretty n +:+ "e-2";
     str_float := id;
     str_float_inj := λ x y Heq, Heq;
     determine_kern := solver false;
     bin_glyphs_by_metric := bins 150;
     namedClasses := delete c classes;
     glyph_rsb := rsb;
     glyph_lsb := lsb;
     routineNamed := λ n, if decide (n = "DotAvoidance") then Some 0%nat
                          else None |}.

(** a word of a final and two medials that each fall by 150 *)
Definition sunk_word : list Bin :=
  (["AINf1"; "BEf1"; "NUNf1"], 100) :: replicate 2 (["BEm1"], -150).

End Sample.

(** * Properties *)

(** ** Reasoning in the monad *)

Section monad_facts.
  Context `{Externals}.

Lemma bind_Ok {A B} (m : M A) (f : A → M B) s b s' :
  (m ≫= f) s = Ok b s' ↔ ∃ a s1, m s = Ok a s1 ∧ f a s1 = Ok b s'.
Proof.
  unfold mbind, M_bind. destruct (m s) as [a s1|s1]; split.
  - eauto.
  - by intros (? & ? & [= -> ->] & ?).
  - done.
  - by intros (? & ? & ? & ?).
Qed.

Lemma bind_Err {A B} (m : M A) (f : A → M B) s s' :
  (m ≫= f) s = Err s' ↔
  m s = Err s' ∨ ∃ a s1, m s = Ok a s1 ∧ f a s1 = Err s'.
Proof.
  unfold mbind, M_bind. destruct (m s) as [a s1|s1]; split.
  - eauto.
  - by intros [?|(? & ? & [= -> ->] & ?)].
  - intros [= ->]. by left.
  - by intros [[= ->]|(? & ? & ? & ?)].
Qed.

Lemma or_raise_Ok {A} (o : option A) s a s' :
  or_raise o s = Ok a s' ↔ o = Some a ∧ s' = s.
Proof.
  destruct o; unfold or_raise, raise, mret, M_ret; split.
  - by intros [= -> ->].
  - by intros [[= ->] ->].
  - done.
  - by intros [? _].
Qed.

Lemma or_raise_Err {A} (o : option A) s s' :
  or_raise o s = Err s' ↔ o = None ∧ s' = s.
Proof.
  destruct o; unfold or_raise, raise, mret, M_ret; split.
  - done.
  - by intros [? _].
  - by intros [= ->].
  - by intros [_ ->].
Qed.

End monad_facts.

(** ** The kern cache *)

Section kern_cache.
  Context `{Externals}.

(** What one call does, by the three ways it can go. *)
Lemma determine_kern_cached_run g1 g2 td h mt s :
  let key := cache_key g1 g2 td h mt in
  let call := {| left_glyph := g1; right_glyph := g2;
                 target_closeness := td; at_height := h; tuck := mt |} in
  match shelve s !! key with
  | Some v => determine_kern_cached g1 g2 td h mt s = Ok v s
  | None =>
      match determine_kern g1 g2 td h mt with
      | Some v =>
          determine_kern_cached g1 g2 td h mt s
          = Ok v (set_shelve (<[key := v]> (shelve s))
                             (log_solver_call call s))
      | None =>
          determine_kern_cached g1 g2 td h mt s
          = Err (log_solver_call call s)
      end
  end.
Proof.
  intros key call.
  unfold determine_kern_cached, call_determine_kern. fold key. fold call.
  unfold mbind, M_bind, get, modify; simpl.
  destruct (shelve s !! key) as [v|] eqn:Hs; [done|].
  unfold or_raise.
  destruct (determine_kern g1 g2 td h mt) as [v|] eqn:Hd; done.
Qed.

(** C1. A hit returns the stored value and leaves the state, solver log
    included, as it was; a miss calls the solver once, stores its result
    under the key and returns it; if the solver raises nothing is stored.
    A second call with the same arguments returns the value of the first
    and makes no solver call, so the solver is called at most once across
    the two. *)
Theorem determine_kern_cached_twice g1 g2 td h mt s :
  let key := cache_key g1 g2 td h mt in
  let call := {| left_glyph := g1; right_glyph := g2; target_closeness := td;
                 at_height := h; tuck := mt |} in
  match shelve s !! key with
  | Some v => determine_kern_cached g1 g2 td h mt s = Ok v s
  | None =>
      match determine_kern g1 g2 td h mt with
      | Some v =>
          determine_kern_cached g1 g2 td h mt s
          = Ok v (set_shelve (<[key := v]> (shelve s)) (log_solver_call call s))
      | None =>
          determine_kern_cached g1 g2 td h mt s = Err (log_solver_call call s)
      end
  end
  ∧ match determine_kern_cached g1 g2 td h mt s with
    | Ok v1 s1 =>
        determine_kern_cached g1 g2 td h mt s1 = Ok v1 s1
        ∧ shelve s1 !! key = Some v1
        ∧ (solver_calls s1 = solver_calls s
           ∨ solver_calls s1 = call :: solver_calls s)
    | Err s1 => shelve s1 = shelve s ∧ determine_kern g1 g2 td h mt = None
    end.
Proof.
  intros key call.
  pose proof (determine_kern_cached_run g1 g2 td h mt s) as Hfirst.
  simpl in Hfirst. fold key call in Hfirst.
  split; [exact Hfirst|].
  destruct (shelve s !! key) as [v|] eqn:Hs.
  - rewrite Hfirst. split; [exact Hfirst|]. split; [done | by left].
  - destruct (determine_kern g1 g2 td h mt) as [v|] eqn:Hd; rewrite Hfirst.
    + split; [|split; [apply lookup_insert_eq | by right]].
      unfold determine_kern_cached. fold key.
      unfold mbind, M_bind, get; simpl.
      by rewrite lookup_insert_eq.
    + done.
Qed.

End kern_cache.

(** ** The cache key *)

Lemma pretty_N_go_no_slash (x : N) s :
  Py.contains "/" s = false → Py.contains "/" (pretty_N_go x s) = false.
Proof.
  revert s. induction (N.lt_wf_0 x) as [x _ IH]; intros s Hs.
  destruct (decide (x = 0%N)) as [->|Hx]; [by rewrite pretty_N_go_0|].
  rewrite pretty_N_go_step by lia.
  apply IH; [apply N.div_lt; lia|].
  simpl. rewrite Hs. unfold pretty_N_char. by repeat case_match.
Qed.

Lemma pretty_N_no_slash (x : N) : Py.contains "/" (pretty x) = false.
Proof.
  unfold pretty, pretty_N. case_decide; [done|]. by apply pretty_N_go_no_slash.
Qed.

Lemma pretty_Z_no_slash (x : Z) : Py.contains "/" (pretty x) = false.
Proof.
  destruct x as [|p|p]; unfold pretty, pretty_Z; [done|..].
  - apply pretty_N_no_slash.
  - simpl. apply (pretty_N_no_slash (N.pos p)).
Qed.

(** The text before the first ['/'] and the text after it are determined
    by the whole. *)
Lemma slash_split_inj a b a' b' :
  Py.contains "/" a = false → Py.contains "/" a' = false →
  a +:+ "/" +:+ b = a' +:+ "/" +:+ b' → a = a' ∧ b = b'.
Proof.
  revert a'. induction a as [|x a IH]; intros [|x' a']; cbn.
  - intros _ _ Heq. by simplify_eq.
  - intros _ Ha' Heq. simplify_eq; by case_decide.
  - intros Ha _ Heq. simplify_eq; by case_decide.
  - intros Ha Ha' Heq. injection Heq as -> Heq.
    case_decide; [done|]. destruct (IH a' Ha Ha' Heq) as [-> ->]. done.
Qed.

Section cache_key.
  Context `{Externals}.

Lemma cache_key_inj g1 g2 td h mt g1' g2' td' h' mt' :
  Py.contains "/" g1 = false → Py.contains "/" g2 = false →
  Py.contains "/" g1' = false → Py.contains "/" g2' = false →
  cache_key g1 g2 td h mt = cache_key g1' g2' td' h' mt' →
  g1 = g1' ∧ g2 = g2' ∧ td = td' ∧ h = h' ∧ mt = mt'.
Proof.
  intros H1 H2 H1' H2'. unfold cache_key; simpl. intros Heq.
  apply slash_split_inj in Heq as [-> Heq]; [|done..].
  apply slash_split_inj in Heq as [-> Heq]; [|done..].
  apply slash_split_inj in Heq as [Htd Heq]; [|apply pretty_Z_no_slash..].
  apply slash_split_inj in Heq as [Hh Heq]; [|apply pretty_Z_no_slash..].
  apply (inj pretty) in Htd as ->. apply (inj pretty) in Hh as ->.
  apply str_float_inj in Heq as ->. done.
Qed.

(** C10. The key is the five arguments in text joined by ['/'].  Two
    different argument tuples whose glyph names hold no ['/'] have different
    keys, and a call for one of them leaves what the shelf holds for the
    other untouched.  With a ['/'] in a glyph name the guarantee is lost:
    the glyph pairs [a/b], [c] and [a], [b/c] share their key. *)
Theorem cache_key_separates g1 g2 td h mt g1' g2' td' h' mt' :
  Py.contains "/" g1 = false → Py.contains "/" g2 = false →
  Py.contains "/" g1' = false → Py.contains "/" g2' = false →
  (g1, g2, td, h, mt) ≠ (g1', g2', td', h', mt') →
  cache_key g1 g2 td h mt
  = Py.join "/" [g1; g2; pretty td; pretty h; str_float mt]
  ∧ cache_key g1 g2 td h mt ≠ cache_key g1' g2' td' h' mt'
  ∧ (∀ s,
       match determine_kern_cached g1' g2' td' h' mt' s with
       | Ok _ s' | Err s' =>
           shelve s' !! cache_key g1 g2 td h mt
           = shelve s !! cache_key g1 g2 td h mt
       end)
  ∧ (("a/b", "c") ≠ ("a", "b/c")
     ∧ cache_key "a/b" "c" td h mt = cache_key "a" "b/c" td h mt).
Proof.
  intros H1 H2 H1' H2' Hne.
  assert (Hkey : cache_key g1 g2 td h mt ≠ cache_key g1' g2' td' h' mt').
  { intros Heq. apply Hne.
    by destruct (cache_key_inj _ _ _ _ _ _ _ _ _ _ H1 H2 H1' H2' Heq)
      as (-> & -> & -> & -> & ->). }
  split; [done|]. split; [done|]. split; [|done].
  intros s.
  pose proof (determine_kern_cached_run g1' g2' td' h' mt' s) as Hrun.
  simpl in Hrun.
  destruct (shelve s !! cache_key g1' g2' td' h' mt') as [v|].
  - by rewrite Hrun.
  - destruct (determine_kern g1' g2' td' h' mt') as [v|]; rewrite Hrun; simpl.
    + by rewrite lookup_insert_ne.
    + done.
Qed.

End cache_key.

Lemma cache_key_separates_witness :
  cache_key (H := Sample.env) "BEi1" "AINf1" 50 100 "0.4"
  ≠ cache_key (H := Sample.env) "BEi1" "AINf1" 50 200 "0.4".
Proof.
  apply (cache_key_separates (H := Sample.env)
           "BEi1" "AINf1" 50 100 "0.4" "BEi1" "AINf1" 50 200 "0.4");
    [reflexivity..|discriminate].
Defined.

(** ** What a step may change *)

Section run.
Context `{Externals}.

#[local] Instance same_shelf_preorder : PreOrder same_shelf.
Proof.
  split; [by intros s|].
  intros s1 s2 s3 [??] [??]. split; congruence.
Qed.

#[local] Instance same_self_preorder : PreOrder same_self.
Proof.
  split; [by intros s|].
  intros s1 s2 s3 (?&?&?&?&?) (?&?&?&?&?). repeat split; congruence.
Qed.

#[local] Instance grows_preorder : PreOrder grows.
Proof.
  split; [by intros s|].
  intros s1 s2 s3 (?&?&?) (?&?&?). repeat split; by etrans.
Qed.

#[local] Instance same_objects_preorder : PreOrder same_objects.
Proof.
  split; [by intros s|].
  intros s1 s2 s3 (?&?&?&?) (?&?&?&?). repeat split; congruence.
Qed.

Section keeps.
Context (R : relation State) `{!PreOrder R}.

Lemma keeps_ret {A} (a : A) : keeps R (mret a).
Proof. intros s. cbn. reflexivity. Qed.

Lemma keeps_raise {A} : keeps R (raise (A := A)).
Proof. intros s. cbn. reflexivity. Qed.

Lemma keeps_get {A} (f : State → A) : keeps R (get f).
Proof. intros s. cbn. reflexivity. Qed.

Lemma keeps_or_raise {A} (o : option A) : keeps R (or_raise o).
Proof. destruct o; [apply keeps_ret | apply keeps_raise]. Qed.

Lemma keeps_modify (f : State → State) :
  (∀ s, R s (f s)) → keeps R (modify f).
Proof. intros Hf s. apply Hf. Qed.

Lemma keeps_bind {A B} (m : M A) (f : A → M B) :
  keeps R m → (∀ a, keeps R (f a)) → keeps R (m ≫= f).
Proof.
  intros Hm Hf s. unfold mbind, M_bind. specialize (Hm s).
  destruct (m s) as [a s1|s1]; [|done].
  specialize (Hf a s1). destruct (f a s1); by etrans.
Qed.

Lemma keeps_for_each {A B} (xs : list A) (acc : B) body :
  (∀ acc x, keeps R (body acc x)) → keeps R (for_each xs acc body).
Proof.
  intros Hbody. revert acc. induction xs as [|x xs IH]; intros acc; simpl.
  - apply keeps_ret.
  - apply keeps_bind; [apply Hbody | intros; apply IH].
Qed.

End keeps.

Create HintDb keeps discriminated.

Ltac keeps_step tac :=
  first
    [ apply keeps_ret; tc_solve | apply keeps_raise; tc_solve
    | apply keeps_get; tc_solve | apply keeps_or_raise; tc_solve
    | solve [auto with keeps]
    | apply keeps_modify; intros ?; solve [tac]
    | apply keeps_for_each; [tc_solve|intros ? ?]
    | apply keeps_bind; [tc_solve| |intros ?]
    | progress simpl
    | case_match ].
Ltac keeps_with tac := repeat keeps_step tac.
Ltac keeps := keeps_with ltac:(by repeat split).

Lemma same_self_determine_kern_cached g1 g2 td h mt :
  keeps same_self (determine_kern_cached g1 g2 td h mt).
Proof. unfold determine_kern_cached, call_determine_kern. keeps. Qed.
Hint Resolve same_self_determine_kern_cached : keeps.

Lemma same_self_generate r : keeps same_self (generate_kern_table_for_rise r).
Proof.
  unfold generate_kern_table_for_rise, kern_row, kern_pair, ink_to_ink_at,
    ink_to_ink_pair, referenceRoutine, alloc.
  keeps.
Qed.
Hint Resolve same_self_generate : keeps.

Lemma same_self_sequence_rules i rules pp :
  keeps same_self (sequence_rules i rules pp).
Proof. unfold sequence_rules. keeps. Qed.

Lemma same_shelf_generate r : keeps same_shelf (generate_kern_table_for_rise r).
Proof.
  unfold generate_kern_table_for_rise, kern_row, kern_pair, ink_to_ink_at,
    ink_to_ink_pair, referenceRoutine, alloc, determine_kern_cached,
    call_determine_kern.
  keeps.
Qed.
Hint Resolve same_shelf_generate : keeps.

Lemma same_shelf_sequence_rules i rules pp :
  keeps same_shelf (sequence_rules i rules pp).
Proof. unfold sequence_rules. keeps. Qed.
Hint Resolve same_shelf_sequence_rules : keeps.

Lemma same_objects_determine_kern_cached g1 g2 td h mt :
  keeps same_objects (determine_kern_cached g1 g2 td h mt).
Proof. unfold determine_kern_cached, call_determine_kern. keeps. Qed.
Hint Resolve same_objects_determine_kern_cached : keeps.

Lemma same_objects_kern_row d r mt ends kt e :
  keeps same_objects (kern_row d r mt ends kt e).
Proof. unfold kern_row, kern_pair. keeps. Qed.
Hint Resolve same_objects_kern_row : keeps.

(** ** The body of the main loop *)

Lemma succeeded_Ok {A} (r : Res A) :
  succeeded r = true → ∃ a, r = Ok a (final_state r).
Proof. destruct r; [by eexists|done]. Qed.

Lemma get_Ok {A} (f : State → A) s a s' : get f s = Ok a s' → a = f s ∧ s' = s.
Proof. by intros [= <- <-]. Qed.

Lemma ret_Ok {A} (a : A) s b s' :
  (mret a : M A) s = Ok b s' → b = a ∧ s' = s.
Proof. by intros [= <- <-]. Qed.

Ltac run_inv :=
  repeat match goal with
  | H : (_ ≫= _) _ = Ok _ _ |- _ =>
      let H1 := fresh "Hrun" in
      apply bind_Ok in H as (? & ? & H1 & H)
  | H : get _ _ = Ok _ _ |- _ => apply get_Ok in H as [-> ->]
  | H : Ok _ _ = Ok _ _ |- _ => injection H as ??; subst
  | H : _ = Ok _ _ |- _ => progress unfold mret, M_ret in H
  | H : or_raise _ _ = Ok _ _ |- _ => apply or_raise_Ok in H as [? ->]
  | H : (let '(_, _) := ?x in _) _ = Ok _ _ |- _ => destruct x
  | H : (if ?b then _ else _) _ = Ok _ _ |- _ => destruct b eqn:?
  end.

Lemma removelast_snoc {A} (l : list A) x : removelast (l ++ [x]) = l.
Proof. apply removelast_last. Qed.

Lemma last_removelast {A} (l : list A) x :
  last l = Some x → removelast l ++ [x] = l.
Proof.
  intros Hl. destruct (decide (l = [])) as [->|Hne]; [done|].
  rewrite (app_removelast_last x Hne) at 2.
  f_equal. f_equal. induction l as [|y [|z l] IH]; simplify_eq/=; [done|].
  apply IH; [done|]. done.
Qed.

Lemma set_last_snoc {A} (x : A) l y :
  Py.set_last x (l ++ [y]) = Some (l ++ [x]).
Proof.
  unfold Py.set_last. rewrite removelast_snoc. by destruct l.
Qed.

Lemma sequence_rules_Ok i rules pp s rules' s' :
  sequence_rules i rules pp s = Ok rules' s' →
  (tail_rise pp < 0 ∧ rules' = rules ∧ s' = s)
  ∨ (0 ≤ tail_rise pp
     ∧ ∃ rise ctx t g,
         (if maximum_rise <=? tail_rise pp
          then rise = maximum_rise
               ∧ if decide (i = maximum_word_length)
                 then Py.pop (reverse (fst <$> pp)) = Some ctx
                 else ctx = reverse (fst <$> pp)
          else rise = tail_rise pp ∧ ctx = reverse (fst <$> pp))
         ∧ generate_kern_table_for_rise rise s = Ok t s'
         ∧ last ctx = Some g
         ∧ rules'
           = rules ++ emitted i rise ctx g (isols_finas s) (inits s) t).
Proof.
  unfold sequence_rules. intros Hrun.
  destruct (tail_rise pp <? 0) eqn:Hneg.
  { run_inv. left. apply Z.ltb_lt in Hneg. done. }
  apply Z.ltb_ge in Hneg. right. split; [done|].
  apply bind_Ok in Hrun as ([rise ctx] & s1 & Hclamp & Hrun).
  assert (s1 = s ∧
          if maximum_rise <=? tail_rise pp
          then rise = maximum_rise
               ∧ if decide (i = maximum_word_length)
                 then Py.pop (reverse (fst <$> pp)) = Some ctx
                 else ctx = reverse (fst <$> pp)
          else rise = tail_rise pp ∧ ctx = reverse (fst <$> pp))
    as [-> Hc].
  { clear Hrun.
    destruct (maximum_rise <=? tail_rise pp); [case_decide|]; run_inv; done. }
  clear Hclamp.
  apply bind_Ok in Hrun as (rights & s1 & Hg & Hrun).
  apply get_Ok in Hg as [-> ->].
  apply bind_Ok in Hrun as (t & s1 & Hgen & Hrun).
  pose proof (same_self_generate rise s) as Hself. rewrite Hgen in Hself.
  destruct Hself as (_ & _ & Hini & _ & Hrights).
  apply bind_Ok in Hrun as (g & s2 & Hlast & Hrun).
  apply or_raise_Ok in Hlast as [Hlast ->].
  exists rise, ctx, t, g. split; [done|].
  clear Hc. pose proof (last_removelast ctx g Hlast) as Hctx.
  set (pre := removelast ctx) in Hctx. clearbody pre. subst ctx. clear Hlast.
  rewrite last_snoc. unfold emitted, blocked.
  rewrite removelast_snoc, length_app, Nat.add_1_r.
  destruct (existsb _ blockers) eqn:Hblock; run_inv;
    repeat match goal with
    | H : Py.set_last _ (_ ++ [_]) = Some _ |- _ =>
        rewrite set_last_snoc in H; injection H as <-
    end;
    rewrite ?length_app, ?Nat.add_1_r in *; rewrite ?Hini, ?Hrights;
    repeat match goal with
    | H : ?b = _ |- context [?b] => rewrite H
    end;
    by rewrite <-?app_assoc.
Qed.

Lemma length_removelast {A} (l : list A) :
  length (removelast l) = pred (length l).
Proof. rewrite removelast_firstn_len, length_take. lia. Qed.

Lemma pop_Some {A} (l l' : list A) : Py.pop l = Some l' → l' = removelast l.
Proof. destruct l; [done|]. by intros [= <-]. Qed.

Lemma sequence_rules_emits i rules pp s rules' s' :
  sequence_rules i rules pp s = Ok rules' s' → 0 ≤ tail_rise pp →
  ∃ t g,
    generate_kern_table_for_rise (clamped_rise pp) s = Ok t s'
    ∧ last (kept_context i pp) = Some g
    ∧ rules' = rules ++ emitted i (clamped_rise pp) (kept_context i pp) g
                                (isols_finas s) (inits s) t.
Proof.
  intros Hrun Hpos.
  apply sequence_rules_Ok in Hrun as [[? _]|(_ & rise & ctx & t & g & Hc & Hrun)];
    [lia|].
  exists t, g. unfold clamped_rise, kept_context.
  destruct (maximum_rise <=? tail_rise pp); simpl.
  - destruct Hc as [-> Hc]. case_decide.
    + apply pop_Some in Hc as ->. by rewrite bool_decide_eq_true_2.
    + subst ctx. by rewrite bool_decide_eq_false_2.
  - by destruct Hc as [-> ->].
Qed.

Lemma emitted_shape i rise ctx g rights ini t rule :
  rule ∈ emitted i rise ctx g rights ini t →
  ∃ innermost,
    rule = Chaining [rights] (ini :: removelast ctx ++ [innermost]) [Some [t]].
Proof.
  unfold emitted. rewrite !elem_of_app, list_elem_of_singleton.
  intros [->|[Hin|Hin]]; [by eexists|..].
  - destruct (_ && _); [|by apply elem_of_nil in Hin].
    apply list_elem_of_singleton in Hin as ->. by eexists.
  - destruct (_ && _); [|by apply elem_of_nil in Hin].
    apply list_elem_of_singleton in Hin as ->. by eexists.
Qed.

(** C4.  A sequence, a final bin [fb] followed by medial bins [mbs], whose
    quantized aggregate rise reaches the cap is filed under rise 600: the
    table of its rules is the one [generate_kern_table_for_rise 600]
    returns.  Its context is the medial groups alone when the length [i] is
    the maximum word length 5 (the final bin is dropped), and the medial
    groups followed by the final group at every other length.  The first
    rule carries that context (less the blockers of its innermost group);
    every rule of the sequence carries it up to the innermost group. *)
Theorem tall_sequence_clamped i rules fb mbs s rules' s' :
  sequence_rules i rules (fb :: mbs) s = Ok rules' s' →
  maximum_rise ≤ tail_rise (fb :: mbs) →
  let kept :=
    if decide (i = maximum_word_length) then reverse (fst <$> mbs)
    else reverse (fst <$> mbs) ++ [fb.1] in
  ∃ t g new,
    generate_kern_table_for_rise 600 s = Ok t s'
    ∧ last kept = Some g
    ∧ rules' = rules ++ new
    ∧ head new
      = Some (Chaining [isols_finas s]
                (inits s :: removelast kept
                   ++ [if blocked g then Py.set_difference g blockers else g])
                [Some [t]])
    ∧ ∀ rule, rule ∈ new →
        ∃ innermost,
          rule = Chaining [isols_finas s]
                   (inits s :: removelast kept ++ [innermost]) [Some [t]].
Proof.
  intros Hrun Htall kept.
  apply sequence_rules_emits in Hrun as (t & g & Hgen & Hlast & ->);
    [|unfold maximum_rise in Htall; lia].
  assert (Hrise : clamped_rise (fb :: mbs) = 600).
  { unfold clamped_rise. by rewrite (proj2 (Z.leb_le _ _) Htall). }
  assert (Hkept : kept_context i (fb :: mbs) = kept).
  { unfold kept_context, kept. rewrite (proj2 (Z.leb_le _ _) Htall).
    rewrite fmap_cons, reverse_cons. simpl.
    case_decide.
    - rewrite bool_decide_eq_true_2 by done. apply removelast_last.
    - by rewrite bool_decide_eq_false_2. }
  rewrite Hrise, Hkept in *.
  exists t, g, (emitted i 600 kept g (isols_finas s) (inits s) t).
  repeat split; [done..|].
  intros rule. apply emitted_shape.
Qed.

Lemma elem_of_set_difference x xs ys :
  x ∈ Py.set_difference xs ys ↔ x ∈ xs ∧ x ∉ ys.
Proof.
  unfold Py.set_difference.
  rewrite elem_of_elements, elem_of_difference, !elem_of_list_to_set. done.
Qed.

(** C7, as the code has it.  For a sequence of [i] medials whose context
    has the innermost group [g] holding a blocker: when the context has more
    than one group the rules appended are the rule with [g] less the
    blockers, then the rule with exactly the blockers, and then, when the
    rise is 400 or more and [i] exceeds 4, a third rule whose innermost
    group is [BARI_YEf1]; when the context has one group only the rule with
    [g] less the blockers is appended. *)
Theorem blocker_split i rules pp s rules' s' g :
  sequence_rules i rules pp s = Ok rules' s' →
  0 ≤ tail_rise pp → length pp = S i →
  last (kept_context i pp) = Some g → blocked g = true →
  ∃ t,
    let rule_with innermost :=
      Chaining [isols_finas s]
        (inits s :: removelast (kept_context i pp) ++ [innermost])
        [Some [t]] in
    (∀ x, x ∈ Py.set_difference g blockers ↔ x ∈ g ∧ x ∉ blockers)
    ∧ if bool_decide (1 < length (kept_context i pp))%nat
      then rules'
           = rules
             ++ [rule_with (Py.set_difference g blockers); rule_with blockers]
             ++ (if (400 <=? clamped_rise pp) && bool_decide (4 < i)%nat
                 then [rule_with ["BARI_YEf1"]] else [])
      else rules' = rules ++ [rule_with (Py.set_difference g blockers)].
Proof.
  intros Hrun Hpos Hlen Hlast Hblocked.
  apply sequence_rules_emits in Hrun as (t & g' & _ & Hlast' & ->); [|done].
  rewrite Hlast in Hlast'. injection Hlast' as <-.
  exists t. simpl. split; [intros x; apply elem_of_set_difference|].
  unfold emitted. rewrite Hblocked, andb_true_r.
  case_bool_decide as Hctx; [done|].
  replace (bool_decide (4 < i)%nat) with false; [by rewrite andb_false_r|].
  symmetry. apply bool_decide_eq_false_2. intros Hi. apply Hctx.
  unfold kept_context.
  cbv zeta.
  destruct (_ && _) eqn:Hclamp.
  - apply andb_true_iff in Hclamp as [_ Hi5%bool_decide_eq_true].
    rewrite length_removelast, length_reverse, length_fmap.
    unfold maximum_word_length in Hi5. lia.
  - rewrite length_reverse, length_fmap. lia.
Qed.
(** ** The shelf over a run of [NastaliqKerning.action] *)

Lemma closes_on_return_bind {A B} (m : M A) (f : A → M B) :
  keeps same_shelf m → (∀ a, closes_on_return (f a)) →
  closes_on_return (m ≫= f).
Proof.
  intros Hm Hf s. unfold mbind, M_bind. specialize (Hm s).
  destruct (m s) as [a s1|s1]; [|done].
  specialize (Hf a s1). destruct Hm as [Ho Hc].
  destruct (f a s1); destruct Hf; split; congruence.
Qed.

Lemma closes_on_return_close {A} (a : A) :
  closes_on_return (shelve_close;; mret a).
Proof. intros s. cbn. done. Qed.

(** C9, as the code has it.  Every run opens the shelf once, before
    anything can fail.  A run that returns has closed it once; a run that
    raises (a missing glyph class, an empty class to cluster, a solver
    error) ends with the shelf still open: the close is the last statement
    of [action] and nothing guards it. *)
Theorem shelf_closed_only_on_return arg0 arg1 s :
  match NastaliqKerning_action arg0 arg1 s with
  | Ok _ s' =>
      shelf_opens s' = S (shelf_opens s) ∧ shelf_closes s' = S (shelf_closes s)
  | Err s' =>
      shelf_opens s' = S (shelf_opens s) ∧ shelf_closes s' = shelf_closes s
  end.
Proof.
  unfold NastaliqKerning_action.
  set (rest := (ini ← or_raise (namedClasses !! "inits"); _) : M (list Routine)).
  assert (Hrest : closes_on_return rest).
  { unfold rest.
    repeat first
      [ apply closes_on_return_close
      | apply closes_on_return_bind; [keeps|intros ?] ]. }
  change ((modify (set_parameters arg0 (percent arg1));;
           modify (set_ink_to_ink_routines ∅);; shelve_open;; rest) s)
    with (rest (count_open (set_ink_to_ink_routines ∅
                  (set_parameters arg0 (percent arg1) s)))).
  specialize (Hrest (count_open (set_ink_to_ink_routines ∅
                  (set_parameters arg0 (percent arg1) s)))).
  destruct (rest _) as [a s'|s']; simpl in Hrest.
  - destruct Hrest as [-> ->]. done.
  - destruct Hrest as [-> ->]. done.
Qed.

(** ** Quantization *)

Lemma round_div_100 r :
  ∃ q m, r = 100 * q + m ∧ 0 ≤ m < 100
         ∧ Py.round_div r 100
           = if 2 * m <? 100 then q
             else if 100 <? 2 * m then q + 1
             else if Z.even q then q else q + 1.
Proof.
  exists (r `div` 100), (r `mod` 100).
  split; [apply Z.div_mod; lia|]. split; [apply Z.mod_pos_bound; lia|done].
Qed.

Lemma quantize_ge_400 r : 400 ≤ quantize r rise_quantization ↔ 350 ≤ r.
Proof.
  unfold quantize, rise_quantization.
  destruct (round_div_100 r) as (q & m & -> & Hm & ->).
  repeat case_match;
    repeat match goal with
    | H : (_ <? _) = true |- _ => apply Z.ltb_lt in H
    | H : (_ <? _) = false |- _ => apply Z.ltb_ge in H
    | H : Z.even _ = true |- _ => apply Z.even_spec in H as [k ->]
    | H : Z.even _ = false |- _ =>
        rewrite <-Z.negb_odd in H; apply negb_false_iff, Z.odd_spec in H
          as [k ->]
    end; lia.
Qed.

Lemma quantize_idemp r :
  quantize (quantize r rise_quantization) rise_quantization
  = quantize r rise_quantization.
Proof.
  unfold quantize, rise_quantization.
  generalize (Py.round_div r 100). intros k.
  unfold Py.round_div.
  replace (100 * k) with (k * 100) by lia.
  rewrite Z.div_mul, Z.mod_mul by lia. simpl. lia.
Qed.

Lemma round_div_cases n d :
  0 < d →
  ∃ q m, n = d * q + m ∧ 0 ≤ m < d
         ∧ Py.round_div n d
           = if 2 * m <? d then q
             else if d <? 2 * m then q + 1
             else if Z.even q then q else q + 1.
Proof.
  intros Hd. exists (n `div` d), (n `mod` d).
  split; [apply Z.div_mod; lia|]. split; [apply Z.mod_pos_bound; lia|done].
Qed.

Ltac bool_to_Z :=
  repeat match goal with
  | H : (_ <? _) = true |- _ => apply Z.ltb_lt in H
  | H : (_ <? _) = false |- _ => apply Z.ltb_ge in H
  | H : Z.even _ = true |- _ => apply Z.even_spec in H as [? ->]
  | H : Z.even _ = false |- _ =>
      rewrite <-Z.negb_odd in H; apply negb_false_iff, Z.odd_spec in H
        as [? ->]
  end.


(** X2.  [quantize] is monotone in the number: a higher rise is never
    filed under a lower multiple. *)
Theorem quantize_monotone n m d :
  0 < d → n ≤ m → quantize n d ≤ quantize m d.
Proof.
  intros Hd Hnm. unfold quantize.
  destruct (round_div_cases n d Hd) as (q1 & m1 & -> & Hm1 & ->).
  destruct (round_div_cases m d Hd) as (q2 & m2 & -> & Hm2 & ->).
  assert (q1 ≤ q2) by nia.
  apply Z.mul_le_mono_nonneg_l; [lia|].
  destruct (decide (q1 = q2)) as [->|Hne].
  - repeat case_match; bool_to_Z; try lia; nia.
  - assert (q1 + 1 ≤ q2) by lia.
    repeat case_match; bool_to_Z; lia.
Qed.


Lemma quantize_neg r : quantize r rise_quantization < 0 ↔ r < -50.
Proof.
  unfold quantize, rise_quantization.
  destruct (round_div_cases r 100) as (q & m & -> & Hm & ->); [lia|].
  repeat case_match; bool_to_Z; lia.
Qed.

Lemma clamped_rise_quantized pp :
  quantize (clamped_rise pp) rise_quantization = clamped_rise pp.
Proof.
  unfold clamped_rise, tail_rise. case_match; [done|apply quantize_idemp].
Qed.

Lemma clamped_rise_range pp :
  0 ≤ tail_rise pp →
  clamped_rise pp ∈ [0; 100; 200; 300; 400; 500; 600].
Proof.
  unfold clamped_rise, tail_rise, maximum_rise, quantize, rise_quantization.
  generalize (Py.round_div (Py.sum (snd <$> pp)) 100). intros k Hk.
  destruct (600 <=? 100 * k) eqn:Hle; [repeat constructor|].
  apply Z.leb_gt in Hle.
  assert (k = 0 ∨ k = 1 ∨ k = 2 ∨ k = 3 ∨ k = 4 ∨ k = 5) as Hcases by lia.
  destruct Hcases as [->|[->|[->|[->|[->| ->]]]]]; repeat constructor.
Qed.

(** ** The table builder *)

#[local] Instance eq_state_preorder : PreOrder (@eq State).
Proof. split; [by intros s|]. intros s1 s2 s3. congruence. Qed.

Lemma ink_to_ink_rules_pure r s0 : keeps eq (ink_to_ink_rules r s0).
Proof. unfold ink_to_ink_rules, ink_to_ink_pair. keeps. Qed.

Lemma same_self_ink r : keeps same_self (ink_to_ink_at r).
Proof.
  unfold ink_to_ink_at, ink_to_ink_pair, referenceRoutine, alloc. keeps.
Qed.

Lemma ink_to_ink_at_run r s :
  match ink_to_ink_routines s !! r with
  | Some t => ink_to_ink_at r s = Ok t s
  | None =>
      match ink_to_ink_rules r s s with
      | Ok ink_rules _ =>
          let t := length (heap s) in
          ink_to_ink_at r s
          = Ok t (set_ink_to_ink_routines (<[r := t]> (ink_to_ink_routines s))
                    (push_reference t
                       (push_object (ink_to_ink_routine r ink_rules) s)))
      | Err _ => ink_to_ink_at r s = Err s
      end
  end.
Proof.
  pose proof (ink_to_ink_rules_pure r s s) as Hpure.
  unfold ink_to_ink_at, ink_to_ink_rules in *.
  unfold mbind, M_bind, get. cbv beta.
  destruct (ink_to_ink_routines s !! r) as [t|] eqn:Hc; [done|].
  destruct (for_each _ _ _ s) as [ink_rules s1|s1]; by subst s1.
Qed.

Lemma grows_determine_kern_cached g1 g2 td h mt :
  keeps grows (determine_kern_cached g1 g2 td h mt).
Proof.
  intros s. pose proof (determine_kern_cached_run g1 g2 td h mt s) as Hrun.
  simpl in Hrun.
  destruct (shelve s !! cache_key g1 g2 td h mt) as [v|] eqn:Hs.
  - by rewrite Hrun.
  - destruct (determine_kern g1 g2 td h mt) as [v|]; rewrite Hrun; [|done].
    split; [done|]. split; [|done]. simpl. by apply insert_subseteq.
Qed.
Hint Resolve grows_determine_kern_cached : keeps.

Lemma grows_push_object o s : grows s (push_object o s).
Proof. split; [|done]. simpl. by apply prefix_app_r. Qed.

Lemma grows_ink_to_ink_at r : keeps grows (ink_to_ink_at r).
Proof.
  intros s. pose proof (ink_to_ink_at_run r s) as Hrun.
  destruct (ink_to_ink_routines s !! r) as [t|] eqn:Hc; [by rewrite Hrun|].
  destruct (ink_to_ink_rules r s s); simpl in Hrun; rewrite Hrun; [|done].
  split; [by apply prefix_app_r|]. split; [done|]. simpl.
  by apply insert_subseteq.
Qed.
Hint Resolve grows_ink_to_ink_at : keeps.

Lemma grows_generate r : keeps grows (generate_kern_table_for_rise r).
Proof.
  unfold generate_kern_table_for_rise, kern_row, kern_pair, referenceRoutine,
    alloc.
  keeps_with ltac:(first [by repeat split | apply grows_push_object]).
Qed.

Lemma same_objects_build q s0 : keeps same_objects (build_kerntable q s0).
Proof. unfold build_kerntable. keeps. Qed.

Lemma same_self_build q s0 : keeps same_self (build_kerntable q s0).
Proof. unfold build_kerntable, kern_row, kern_pair. keeps.
 all: apply same_self_determine_kern_cached. Qed.

Lemma generate_fresh_run r s :
  kern_at_rise s !! r = None →
  let q := quantize r rise_quantization in
  generate_kern_table_for_rise r s
  = match build_kerntable q s s with
    | Err s1 => Err s1
    | Ok kerntable s1 =>
        match namedClasses !! "all_above_marks" with
        | None => Err s1
        | Some abovemarks =>
            let kernroutine := length (heap s1) in
            let s2 :=
              push_reference kernroutine
                (push_object (kern_routine q kerntable abovemarks) s1) in
            if 400 <=? q then
              Ok kernroutine
                 (set_kern_at_rise (<[q := kernroutine]> (kern_at_rise s2)) s2)
            else
              match ink_to_ink_at q s2 with
              | Err s3 => Err s3
              | Ok ink s3 =>
                  let dispatch := length (heap s3) in
                  let s4 :=
                    push_object
                      (dispatch_routine q (isols_finas s)
                         (left_candidates s q) ink kernroutine) s3 in
                  Ok dispatch
                     (set_kern_at_rise (<[q := dispatch]> (kern_at_rise s4)) s4)
              end
        end
    end.
Proof.
  intros Hc q.
  pose proof (same_self_build q s s) as Hself.
  unfold generate_kern_table_for_rise, build_kerntable, left_candidates in *.
  fold q. unfold mbind, M_bind, get. cbv beta. rewrite Hc.
  destruct (for_each _ _ _ s) as [kt s1|s1]; [|done].
  destruct Hself as (_ & _ & Hini & Hiso & Hfin).
  unfold or_raise.
  destruct (namedClasses !! "all_above_marks") as [marks|]; [|done].
  simpl. destruct (400 <=? q); [done|].
  pose proof (same_self_ink q (push_reference (length (heap s1))
     (push_object (kern_routine q kt marks) s1))) as Hself.
  unfold kern_routine in *.
  destruct (ink_to_ink_at q _) as [ink s3|s3]; [|done].
  destruct Hself as (_ & _ & _ & _ & Hfin3). simpl in Hfin3.
  simpl. unfold dispatch_routine. by rewrite Hfin3, Hfin.
Qed.

Lemma ink_to_ink_at_Ok r s t s' :
  ink_to_ink_at r s = Ok t s' →
  ink_to_ink_routines s' !! r = Some t ∧ kern_at_rise s' = kern_at_rise s.
Proof.
  pose proof (ink_to_ink_at_run r s) as Hrun.
  destruct (ink_to_ink_routines s !! r) as [t0|] eqn:Hc.
  - rewrite Hrun. by intros [= <- <-].
  - destruct (ink_to_ink_rules r s s); simpl in Hrun; rewrite Hrun; [|done].
    intros [= <- <-]. simpl. by rewrite lookup_insert_eq.
Qed.

Lemma is_dispatcher_mono s s' k o :
  same_self s s' → grows s s' → is_dispatcher s k o → is_dispatcher s' k o.
Proof.
  intros (_ & _ & Hini & Hiso & Hfin) (Hheap & _ & Hink)
    (ink & kr & okern & -> & Hi & Hk & Hok).
  exists ink, kr, okern. unfold left_candidates. rewrite Hini, Hiso, Hfin.
  split; [done|]. split; [by eapply lookup_weaken|].
  split; [by eapply prefix_lookup_Some|done].
Qed.

Lemma generate_fresh_Ok r s t s' :
  kern_at_rise s !! r = None →
  generate_kern_table_for_rise r s = Ok t s' →
  let q := quantize r rise_quantization in
  ∃ kerntable s1 abovemarks,
    build_kerntable q s s = Ok kerntable s1
    ∧ namedClasses !! "all_above_marks" = Some abovemarks
    ∧ heap s' !! length (heap s)
      = Some (kern_routine q kerntable abovemarks)
    ∧ kern_at_rise s' = <[q := t]> (kern_at_rise s)
    ∧ if 400 <=? q then t = length (heap s)
      else ∃ ink,
        ink_to_ink_routines s' !! q = Some ink
        ∧ heap s' !! t
          = Some (dispatch_routine q (isols_finas s) (left_candidates s q)
                    ink (length (heap s))).
Proof.
  intros Hc Hrun q. rewrite (generate_fresh_run r s Hc) in Hrun. fold q in Hrun.
  pose proof (same_objects_build q s s) as Hobj.
  destruct (build_kerntable q s s) as [kt s1|s1]; [|done].
  destruct Hobj as (Hheap & _ & Hkern & _).
  destruct (namedClasses !! "all_above_marks") as [marks|]; [|done].
  exists kt, s1, marks. split; [done|]. split; [done|].
  simpl in Hrun. destruct (400 <=? q).
  - injection Hrun as <- <-. simpl. rewrite Hheap, Hkern.
    split; [|done]. by rewrite lookup_app_r, Nat.sub_diag.
  - set (s2 := push_reference _ _) in Hrun.
    pose proof (grows_ink_to_ink_at q s2) as Hgrow.
    destruct (ink_to_ink_at q s2) as [ink s3|s3] eqn:Hink; [|done].
    apply ink_to_ink_at_Ok in Hink as [Hink Hkern3].
    destruct Hgrow as (Hpre & _).
    injection Hrun as <- <-. simpl. rewrite Hkern3. simpl. rewrite Hkern.
    split; [|split; [done|]].
    + apply lookup_app_l_Some. eapply prefix_lookup_Some; [|done].
      simpl. rewrite <-Hheap. by rewrite lookup_app_r, Nat.sub_diag.
    + exists ink. split; [done|].
      by rewrite lookup_app_r, Nat.sub_diag, Hheap.
Qed.

Lemma cache_ok_empty s : kern_at_rise s = ∅ → cache_ok s.
Proof. intros Hempty k t. by rewrite Hempty, lookup_empty. Qed.

(** C2, as the code has it.  The threshold is applied to the rise [q]
    after quantization to a multiple of 100, so the direct table is
    returned exactly for the arguments [r >= 350] (399 among them), and the
    dispatcher for [r < 350].  The direct result is the kern table
    [kern_at_q].  The dispatcher has exactly two rules, in this order: the
    one matching right glyphs, [space.urdu], left candidates, which applies
    the ink-to-ink routine of [q], then the one matching right glyphs, left
    candidates, which applies the kern table [kern_at_q].  Cached results
    have the same shape: that is the invariant [cache_ok], which every call
    preserves. *)
Theorem table_or_dispatcher r s t s' :
  cache_ok s →
  generate_kern_table_for_rise r s = Ok t s' →
  let q := quantize r rise_quantization in
  (400 ≤ q ↔ 350 ≤ r)
  ∧ cache_ok s'
  ∧ ∃ o, heap s' !! t = Some o
         ∧ if 400 <=? q then is_kern_table q o else is_dispatcher s' q o.
Proof.
  intros Hok Hrun q. split; [apply quantize_ge_400|].
  pose proof (same_self_generate r s) as Hself.
  pose proof (grows_generate r s) as Hgrow.
  rewrite Hrun in Hself, Hgrow.
  destruct (kern_at_rise s !! r) as [t0|] eqn:Hc.
  { assert (t = t0 ∧ s' = s) as [-> ->].
    { revert Hrun. unfold generate_kern_table_for_rise.
      unfold mbind, M_bind, get. cbv beta. rewrite Hc. by intros [= <- <-]. }
    split; [done|]. destruct (Hok r t0 Hc) as [Hq Ho]. unfold q.
    by rewrite Hq. }
  destruct (generate_fresh_Ok r s t s' Hc Hrun)
    as (kt & s1 & marks & _ & _ & Hkr & Hkern & Hshape). fold q in Hkr, Hkern, Hshape.
  assert (Hnew : ∃ o, heap s' !! t = Some o
           ∧ if 400 <=? q then is_kern_table q o else is_dispatcher s' q o).
  { destruct (400 <=? q).
    - subst t. eexists. split; [done|]. by eexists _, _.
    - destruct Hshape as (ink & Hink & Hd). eexists. split; [done|].
      destruct Hself as (_ & _ & Hini & Hiso & Hfin).
      exists ink, (length (heap s)), (kern_routine q kt marks).
      unfold left_candidates. rewrite Hini, Hiso, Hfin.
      repeat split; [done..|]. by eexists _, _. }
  split; [|done].
  intros k t'. rewrite Hkern. intros Hk.
  destruct (decide (q = k)) as [<-|Hne].
  - rewrite lookup_insert_eq in Hk. injection Hk as <-.
    split; [apply quantize_idemp|done].
  - rewrite lookup_insert_ne in Hk by done.
    destruct (Hok k t' Hk) as (Hq & o & Ho & Hshape').
    split; [done|]. exists o. destruct Hgrow as (Hpre & ?).
    split; [by eapply prefix_lookup_Some|].
    destruct (400 <=? k); [done|].
    eapply is_dispatcher_mono; [done| |done]. by split.
Qed.

(** A second call with the same argument returns the cached reference when
    the argument is already a multiple of 100: the table is stored under the
    quantized rise, and looked up under the argument as it was passed. *)
Lemma generate_memoized r s t s' :
  quantize r rise_quantization = r →
  generate_kern_table_for_rise r s = Ok t s' →
  kern_at_rise s' !! r = Some t
  ∧ generate_kern_table_for_rise r s' = Ok t s'.
Proof.
  intros Hq Hrun.
  assert (Hcached : ∀ s0 t0, kern_at_rise s0 !! r = Some t0 →
                      generate_kern_table_for_rise r s0 = Ok t0 s0).
  { intros s0 t0 Hs0. unfold generate_kern_table_for_rise.
    unfold mbind, M_bind, get. cbv beta. by rewrite Hs0. }
  assert (kern_at_rise s' !! r = Some t) as Hs'; [|by auto].
  destruct (kern_at_rise s !! r) as [t0|] eqn:Hc.
  - rewrite (Hcached s t0 Hc) in Hrun. by injection Hrun as <- <-.
  - destruct (generate_fresh_Ok r s t s' Hc Hrun)
      as (_ & _ & _ & _ & _ & _ & Hkern & _).
    rewrite Hkern, Hq. apply lookup_insert_eq.
Qed.

(** ** The ink-to-ink table *)

Lemma ink_inner_loop d r right lefts rules s rules' s' :
  for_each lefts rules (ink_to_ink_pair (tapered_distance d r) right) s
  = Ok rules' s' →
  (∀ left, left ∈ lefts →
     is_Some (glyph_rsb left) ∧ is_Some (glyph_lsb right))
  ∧ rules' = rules ++ (lefts ≫= ink_pair_rules d r right).
Proof.
  revert rules s. induction lefts as [|left lefts IH]; intros rules s; simpl.
  { intros [= <- <-]. split; [by intros ? ?%elem_of_nil|].
    by rewrite app_nil_r. }
  intros Hrun. apply bind_Ok in Hrun as (rules1 & s1 & Hpair & Hrun).
  apply IH in Hrun as [Hdef ->]. clear IH.
  unfold ink_to_ink_pair in Hpair.
  apply bind_Ok in Hpair as (rsb & s2 & Hrsb & Hpair).
  apply or_raise_Ok in Hrsb as [Hrsb ->].
  apply bind_Ok in Hpair as (lsb & s2 & Hlsb & Hpair).
  apply or_raise_Ok in Hlsb as [Hlsb ->].
  split.
  - intros left' [->|Hin]%elem_of_cons; [by rewrite Hrsb, Hlsb|by apply Hdef].
  - unfold ink_pair_rules at 2. rewrite Hrsb, Hlsb. fold (ink_distance d r rsb lsb) in Hpair.
    simpl. destruct (decide (ink_distance d r rsb lsb = 0));
      injection Hpair as <- _; by rewrite <-?app_assoc.
Qed.

Lemma ink_outer_loop d r rights lefts rules s rules' s' :
  for_each rights rules (λ rules right,
    for_each lefts rules (ink_to_ink_pair (tapered_distance d r) right)) s
  = Ok rules' s' →
  (∀ right left, right ∈ rights → left ∈ lefts →
     is_Some (glyph_rsb left) ∧ is_Some (glyph_lsb right))
  ∧ rules'
    = rules ++ (rights ≫= λ right, lefts ≫= ink_pair_rules d r right).
Proof.
  revert rules s. induction rights as [|right rights IH]; intros rules s; simpl.
  { intros [= <- <-]. split; [by intros ? ? ?%elem_of_nil|].
    by rewrite app_nil_r. }
  intros Hrun. apply bind_Ok in Hrun as (rules1 & s1 & Hrow & Hrun).
  apply ink_inner_loop in Hrow as [Hdef1 ->].
  apply IH in Hrun as [Hdef ->].
  split; [|by rewrite <-app_assoc].
  intros right' left [->|Hin]%elem_of_cons Hleft; [by apply Hdef1|by apply Hdef].
Qed.

Lemma elem_of_ink_rules d r rights lefts right left v :
  ink_rule right left v
  ∈ (rights ≫= λ right, lefts ≫= ink_pair_rules d r right)
  ↔ right ∈ rights ∧ left ∈ lefts
    ∧ ∃ rsb lsb, glyph_rsb left = Some rsb ∧ glyph_lsb right = Some lsb
                 ∧ v = ink_distance d r rsb lsb ∧ v ≠ 0.
Proof.
  rewrite list_elem_of_bind. setoid_rewrite list_elem_of_bind.
  unfold ink_pair_rules. split.
  - intros (right' & (left' & Hrule & Hleft) & Hright).
    destruct (glyph_rsb left') as [rsb|] eqn:Hrsb;
      [|by apply elem_of_nil in Hrule].
    destruct (glyph_lsb right') as [lsb|] eqn:Hlsb;
      [|by apply elem_of_nil in Hrule].
    simpl in Hrule. case_decide as Hz; [by apply elem_of_nil in Hrule|].
    apply list_elem_of_singleton in Hrule. injection Hrule as -> -> ->.
    eauto 10.
  - intros (Hright & Hleft & rsb & lsb & Hrsb & Hlsb & -> & Hz).
    exists right. split; [|done]. exists left. split; [|done].
    rewrite Hrsb, Hlsb. simpl. rewrite decide_False by done.
    by apply list_elem_of_singleton.
Qed.

(** C6, as the code has it.  The table built for a rise [r] not yet cached
    is named [ink_to_ink_r]; the base distance is halved at rise 100, taken
    to a fifth at 200 and 300 and left whole otherwise.  For every right
    glyph of the finals and isolates and every left glyph of the initials
    and isolates, the advance is the tapered distance less the right side
    bearing of the LEFT glyph and the left side bearing of the RIGHT glyph
    (each at least 0), truncated toward zero to an integer; the pair has a
    rule, carrying that advance, exactly when the truncated value is not 0. *)
Theorem ink_to_ink_table r s t s' :
  ink_to_ink_routines s !! r = None →
  ink_to_ink_at r s = Ok t s' →
  (∀ d, tapered_distance d 100 = Qmult (inject_Z d) (Qmake 1 2)
        ∧ tapered_distance d 200 = Qmult (inject_Z d) (Qmake 1 5)
        ∧ tapered_distance d 300 = Qmult (inject_Z d) (Qmake 1 5)
        ∧ tapered_distance d 0 = inject_Z d)
  ∧ ∃ o,
      heap s' !! t = Some o
      ∧ name o = "ink_to_ink_" +:+ pretty r
      ∧ ∀ right left,
          right ∈ isols_finas s → left ∈ inits s ++ isols s →
          ∃ rsb lsb,
            glyph_rsb left = Some rsb ∧ glyph_lsb right = Some lsb
            ∧ ∀ v, ink_rule right left v ∈ rules o
                   ↔ v = Py.int (Qminus
                                   (tapered_distance (distance_at_closest s) r)
                                   (inject_Z (Py.max rsb 0 + Py.max lsb 0)))
                     ∧ v ≠ 0.
Proof.
  intros Hc Hrun. split; [done|].
  pose proof (ink_to_ink_at_run r s) as Hspec. rewrite Hc in Hspec.
  destruct (ink_to_ink_rules r s s) as [ink_rules s1|s1] eqn:Hloop;
    simpl in Hspec; rewrite Hspec in Hrun; [|done].
  injection Hrun as <- <-.
  exists (ink_to_ink_routine r ink_rules). simpl.
  split; [by rewrite lookup_app_r, Nat.sub_diag|]. split; [done|].
  apply ink_outer_loop in Hloop as [Hdef ->]. simpl.
  intros right left Hright Hleft.
  destruct (Hdef right left Hright Hleft) as [[rsb Hrsb] [lsb Hlsb]].
  exists rsb, lsb. split; [done|]. split; [done|].
  intros v. rewrite elem_of_ink_rules. split.
  - intros (_ & _ & rsb' & lsb' & Hrsb' & Hlsb' & Hv & Hz). by simplify_eq.
  - intros [Hv Hz]. eauto 10.
Qed.

(** ** The run as a whole *)

#[local] Instance shelf_kept_preorder : PreOrder shelf_kept.
Proof.
  unfold shelf_kept. split; [by intros s|]. intros s1 s2 s3 ??. by etrans.
Qed.

#[local] Instance same_solver_preorder : PreOrder same_solver.
Proof.
  split; [by intros s|].
  intros s1 s2 s3 [??] [??]. split; congruence.
Qed.

Lemma modify_Ok (f : State → State) s u s' :
  modify f s = Ok u s' → s' = f s.
Proof. by intros [= <-]. Qed.

Lemma generate_cached r s t :
  kern_at_rise s !! r = Some t → generate_kern_table_for_rise r s = Ok t s.
Proof.
  intros Hs. unfold generate_kern_table_for_rise.
  unfold mbind, M_bind, get. cbv beta. by rewrite Hs.
Qed.

Lemma generate_quantized_Ok r s t s' :
  quantize r rise_quantization = r →
  generate_kern_table_for_rise r s = Ok t s' →
  kern_at_rise s ⊆ kern_at_rise s'
  ∧ kern_at_rise s' !! r = Some t
  ∧ ∀ k t', kern_at_rise s' !! k = Some t' →
            k = r ∨ kern_at_rise s !! k = Some t'.
Proof.
  intros Hq Hrun. destruct (kern_at_rise s !! r) as [t0|] eqn:Hc.
  - rewrite (generate_cached r s t0 Hc) in Hrun. injection Hrun as <- <-.
    split; [done|]. split; [done|]. by right.
  - destruct (generate_fresh_Ok r s t s' Hc Hrun)
      as (_ & _ & _ & _ & _ & _ & Hkern & _).
    rewrite Hq in Hkern. rewrite Hkern.
    split; [by apply insert_subseteq|]. split; [apply lookup_insert_eq|].
    intros k t' Hk. destruct (decide (r = k)) as [->|Hne]; [by left|].
    right. by rewrite lookup_insert_ne in Hk.
Qed.

Lemma sequence_rules_step i rules pp s rules' s' :
  sequence_rules i rules pp s = Ok rules' s' →
  same_self s s'
  ∧ kern_at_rise s ⊆ kern_at_rise s'
  ∧ (∀ k t', kern_at_rise s' !! k = Some t' →
             k ∈ rises ∨ kern_at_rise s !! k = Some t')
  ∧ ∀ tables, kern_at_rise s' ⊆ tables →
      rules' = rules ++ sequence_contribution i pp tables
                          (isols_finas s) (inits s).
Proof.
  intros Hrun.
  pose proof (same_self_sequence_rules i rules pp s) as Hself.
  rewrite Hrun in Hself. split; [done|]. unfold sequence_contribution.
  destruct (Z.ltb_spec (tail_rise pp) 0) as [Hneg|Hpos].
  - apply sequence_rules_Ok in Hrun as [(_ & -> & ->)|[? _]]; [|lia].
    split; [done|]. split; [by right|]. intros. by rewrite app_nil_r.
  - apply sequence_rules_emits in Hrun as (t & g & Hgen & Hlast & ->); [|done].
    apply generate_quantized_Ok in Hgen as (Hsub & Ht & Hkeys);
      [|apply clamped_rise_quantized].
    split; [done|]. split.
    + intros k t' Hk. destruct (Hkeys k t' Hk) as [->|?]; [|by right].
      left. by apply clamped_rise_range.
    + intros tables Htables.
      by rewrite (lookup_weaken _ _ _ _ Ht Htables), Hlast.
Qed.

Lemma sequence_loop i pps : ∀ rules s rules' s',
  for_each pps rules (sequence_rules i) s = Ok rules' s' →
  same_self s s'
  ∧ kern_at_rise s ⊆ kern_at_rise s'
  ∧ (∀ k t', kern_at_rise s' !! k = Some t' →
             k ∈ rises ∨ kern_at_rise s !! k = Some t')
  ∧ ∀ tables, kern_at_rise s' ⊆ tables →
      rules' = rules ++ (pp ← pps;
                         sequence_contribution i pp tables
                           (isols_finas s) (inits s)).
Proof.
  induction pps as [|pp pps IH]; intros rules s rules' s'; simpl.
  { intros [= <- <-]. split; [done|]. split; [done|]. split; [by right|].
    intros. by rewrite app_nil_r. }
  intros Hrun. apply bind_Ok in Hrun as (rules1 & s1 & Hstep & Hrun).
  apply sequence_rules_step in Hstep as (Hself1 & Hsub1 & Hkeys1 & Hrules1).
  apply IH in Hrun as (Hself & Hsub & Hkeys & Hrules).
  split; [by etrans|]. split; [by etrans|]. split.
  - intros k t' Hk. destruct (Hkeys k t' Hk) as [?|Hk1]; [by left|].
    by apply Hkeys1.
  - intros tables Htables. rewrite (Hrules tables Htables).
    rewrite (Hrules1 tables) by (by etrans).
    destruct Hself1 as (_ & _ & -> & _ & ->). by rewrite <-app_assoc.
Qed.

Lemma main_loop_Ok binned_finas binned_medis lengths : ∀ rules s rules' s',
  for_each lengths rules (λ rules i,
    for_each (all_options binned_finas binned_medis i) rules
             (sequence_rules i)) s
  = Ok rules' s' →
  same_self s s'
  ∧ kern_at_rise s ⊆ kern_at_rise s'
  ∧ (∀ k t', kern_at_rise s' !! k = Some t' →
             k ∈ rises ∨ kern_at_rise s !! k = Some t')
  ∧ ∀ tables, kern_at_rise s' ⊆ tables →
      rules' = rules ++ (i ← lengths;
                         pp ← all_options binned_finas binned_medis i;
                         sequence_contribution i pp tables
                           (isols_finas s) (inits s)).
Proof.
  induction lengths as [|i lengths IH]; intros rules s rules' s'; simpl.
  { intros [= <- <-]. split; [done|]. split; [done|]. split; [by right|].
    intros. by rewrite app_nil_r. }
  intros Hrun. apply bind_Ok in Hrun as (rules1 & s1 & Hstep & Hrun).
  apply sequence_loop in Hstep as (Hself1 & Hsub1 & Hkeys1 & Hrules1).
  apply IH in Hrun as (Hself & Hsub & Hkeys & Hrules).
  split; [by etrans|]. split; [by etrans|]. split.
  - intros k t' Hk. destruct (Hkeys k t' Hk) as [?|Hk1]; [by left|].
    by apply Hkeys1.
  - intros tables Htables. rewrite (Hrules tables Htables).
    rewrite (Hrules1 tables) by (by etrans).
    destruct Hself1 as (_ & _ & -> & _ & ->). by rewrite <-app_assoc.
Qed.

(** What a run that returns has read, left in the verb object and
    returned. *)
Lemma action_Ok arg0 arg1 s routines s' :
  NastaliqKerning_action arg0 arg1 s = Ok routines s' →
  ∃ ini medis bariye all_isols all_finas binned_medis binned_finas t,
    namedClasses !! "inits" = Some ini
    ∧ namedClasses !! "medis" = Some medis
    ∧ namedClasses !! "bariye" = Some bariye
    ∧ namedClasses !! "isols" = Some all_isols
    ∧ namedClasses !! "finas" = Some all_finas
    ∧ bin_glyphs_by_metric medis accuracy1 = Some binned_medis
    ∧ bin_glyphs_by_metric (filter (λ x, x ∉ bariye) all_finas) accuracy1
      = Some binned_finas
    ∧ distance_at_closest s' = arg0 ∧ maxtuck s' = percent arg1
    ∧ inits s' = ini
    ∧ isols s' = filter (λ x, x ∉ bariye) all_isols
    ∧ isols_finas s'
      = Py.set_union (filter (λ x, x ∉ bariye) all_isols
                      ++ filter (λ x, x ∉ bariye) all_finas) bariye
    ∧ (∀ k t', kern_at_rise s' !! k = Some t' → k ∈ rises)
    ∧ kern_at_rise s' !! 0 = Some t
    ∧ routines
      = [ {| name := "NastaliqKerning"; flags := 12;
             rules :=
               (i ← Py.range_down maximum_word_length;
                pp ← all_options binned_finas binned_medis i;
                sequence_contribution i pp (kern_at_rise s')
                  (isols_finas s') (inits s'))
               ++ [Chaining [isols_finas s'] [isols s'] [Some [t]]];
             markFilteringSet := None; _table := None |} ].
Proof.
  unfold NastaliqKerning_action, shelve_open, shelve_close. intros Hrun.
  repeat match type of Hrun with
  | (modify _ ≫= _) _ = Ok _ _ =>
      let Hm := fresh "Hm" in
      apply bind_Ok in Hrun as ([] & ? & Hm & Hrun);
      apply modify_Ok in Hm; subst
  | (or_raise _ ≫= _) _ = Ok _ _ =>
      let Hm := fresh "Hlook" in
      apply bind_Ok in Hrun as (? & ? & Hm & Hrun);
      apply or_raise_Ok in Hm as [Hm ->]
  | (get _ ≫= _) _ = Ok _ _ =>
      let Hm := fresh "Hm" in
      apply bind_Ok in Hrun as (? & ? & Hm & Hrun);
      apply get_Ok in Hm as [-> ->]
  end.
  apply bind_Ok in Hrun as (main_rules & s1 & Hloop & Hrun).
  apply main_loop_Ok in Hloop as (Hself & Hsub & Hkeys & Hrules).
  apply bind_Ok in Hrun as (rights & s2 & Hg & Hrun).
  apply get_Ok in Hg as [-> ->].
  apply bind_Ok in Hrun as (t & s2 & Hgen & Hrun).
  pose proof (same_self_generate 0 s1) as Hself2. rewrite Hgen in Hself2.
  apply generate_quantized_Ok in Hgen as (Hsub2 & Ht & Hkeys2); [|done].
  apply bind_Ok in Hrun as (iso & s3 & Hg & Hrun).
  apply get_Ok in Hg as [-> ->].
  apply bind_Ok in Hrun as ([] & s3 & Hm & Hrun).
  apply modify_Ok in Hm as ->. injection Hrun as <- <-.
  assert (Hself' : same_self s1 (count_close s2)) by done.
  destruct Hself as (Hd & Hmt & Hini & Hiso & Hfin).
  destruct Hself' as (Hd' & Hmt' & Hini' & Hiso' & Hfin').
  simpl in Hd, Hmt, Hini, Hiso, Hfin.
  eexists _, _, _, _, _, _, _, t. do 7 (split; [done|]).
  split; [congruence|]. split; [congruence|]. split; [congruence|].
  split; [congruence|]. split; [congruence|]. split.
  { intros k t' Hk. simpl in Hk.
    destruct (Hkeys2 k t' Hk) as [->|Hk1]; [repeat constructor|].
    destruct (Hkeys k t' Hk1) as [?|Hk0]; [done|].
    simpl in Hk0. by rewrite lookup_empty in Hk0. }
  split; [done|].
  rewrite (Hrules (kern_at_rise (count_close s2)) Hsub2).
  change (isols_finas (count_close s2)) with (isols_finas s2) in *.
  change (isols (count_close s2)) with (isols s2) in *.
  change (inits (count_close s2)) with (inits s2) in *.
  rewrite Hfin', Hiso', Hini', Hfin, Hini. reflexivity.
Qed.

(** ** One table for a rise *)

Lemma sequence_loop_cached i pps : ∀ rules s rules' s',
  for_each pps rules (sequence_rules i) s = Ok rules' s' →
  ∀ pp, pp ∈ pps → 0 ≤ tail_rise pp →
    is_Some (kern_at_rise s' !! clamped_rise pp)
    ∧ is_Some (last (kept_context i pp)).
Proof.
  induction pps as [|pp0 pps IH]; intros rules s rules' s'; simpl.
  { by intros _ pp ?%elem_of_nil. }
  intros Hrun. apply bind_Ok in Hrun as (rules1 & s1 & Hstep & Hrun).
  intros pp [->|Hin]%elem_of_cons Hpos; [|by eapply IH].
  apply sequence_rules_emits in Hstep as (t & g & Hgen & Hlast & _); [|done].
  apply generate_quantized_Ok in Hgen as (_ & Ht & _);
    [|apply clamped_rise_quantized].
  apply sequence_loop in Hrun as (_ & Hsub & _).
  split; [|by eexists]. exists t. by eapply lookup_weaken.
Qed.

Lemma main_loop_cached binned_finas binned_medis lengths :
  ∀ rules s rules' s',
  for_each lengths rules (λ rules i,
    for_each (all_options binned_finas binned_medis i) rules
             (sequence_rules i)) s
  = Ok rules' s' →
  ∀ i pp, i ∈ lengths → pp ∈ all_options binned_finas binned_medis i →
    0 ≤ tail_rise pp →
    is_Some (kern_at_rise s' !! clamped_rise pp)
    ∧ is_Some (last (kept_context i pp)).
Proof.
  induction lengths as [|i0 lengths IH]; intros rules s rules' s'; simpl.
  { by intros _ i pp ?%elem_of_nil. }
  intros Hrun. apply bind_Ok in Hrun as (rules1 & s1 & Hstep & Hrun).
  intros i pp [->|Hin]%elem_of_cons Hpp Hpos; [|by eapply IH].
  destruct (sequence_loop_cached _ _ _ _ _ _ Hstep pp Hpp Hpos)
    as [[t Ht] Hlast].
  apply main_loop_Ok in Hrun as (_ & Hsub & _).
  split; [|done]. exists t. by eapply lookup_weaken.
Qed.

Lemma action_cached arg0 arg1 s routines s' :
  NastaliqKerning_action arg0 arg1 s = Ok routines s' →
  ∀ medis bariye all_finas binned_medis binned_finas,
    namedClasses !! "medis" = Some medis →
    namedClasses !! "bariye" = Some bariye →
    namedClasses !! "finas" = Some all_finas →
    bin_glyphs_by_metric medis accuracy1 = Some binned_medis →
    bin_glyphs_by_metric (filter (λ x, x ∉ bariye) all_finas) accuracy1
    = Some binned_finas →
    ∀ i pp, i ∈ Py.range_down maximum_word_length →
      pp ∈ all_options binned_finas binned_medis i → 0 ≤ tail_rise pp →
      is_Some (kern_at_rise s' !! clamped_rise pp)
      ∧ is_Some (last (kept_context i pp)).
Proof.
  unfold NastaliqKerning_action, shelve_open, shelve_close. intros Hrun.
  repeat match type of Hrun with
  | (modify _ ≫= _) _ = Ok _ _ =>
      let Hm := fresh "Hm" in
      apply bind_Ok in Hrun as ([] & ? & Hm & Hrun);
      apply modify_Ok in Hm; subst
  | (or_raise _ ≫= _) _ = Ok _ _ =>
      let Hm := fresh "Hlook" in
      apply bind_Ok in Hrun as (? & ? & Hm & Hrun);
      apply or_raise_Ok in Hm as [Hm ->]
  | (get _ ≫= _) _ = Ok _ _ =>
      let Hm := fresh "Hm" in
      apply bind_Ok in Hrun as (? & ? & Hm & Hrun);
      apply get_Ok in Hm as [-> ->]
  end.
  apply bind_Ok in Hrun as (main_rules & s1 & Hloop & Hrun).
  intros medis bariye all_finas bm bf Hmedis Hbariye Hfinas Hbm Hbf.
  simplify_eq. intros i pp Hi Hpp Hpos.
  destruct (main_loop_cached _ _ _ _ _ _ _ Hloop i pp Hi Hpp Hpos)
    as [[t Ht] Hlast].
  split; [|done]. exists t.
  apply bind_Ok in Hrun as (rights & s2 & Hg & Hrun).
  apply get_Ok in Hg as [-> ->].
  apply bind_Ok in Hrun as (t0 & s2 & Hgen & Hrun).
  apply generate_quantized_Ok in Hgen as (Hsub2 & _); [|done].
  apply bind_Ok in Hrun as (iso & s3 & Hg & Hrun).
  apply get_Ok in Hg as [-> ->].
  apply bind_Ok in Hrun as ([] & s3 & Hm & Hrun).
  apply modify_Ok in Hm as ->. injection Hrun as _ <-.
  by eapply lookup_weaken.
Qed.

(** C5.  Within a run of [NastaliqKerning.action] the kern table of a rise
    is built once and shared.  First, the memo of
    [generate_kern_table_for_rise] holds for rises that are multiples of
    100: when two such arguments are equal after quantization and a call
    with the first has returned, a call with the second, made in any state
    whose memo holds what the memo held after the first, returns the
    identical reference and changes nothing.  Second, a run passes such
    arguments only and never takes a table out of the memo: the body of the
    main loop requests the table of the clamped rise of its sequence, which
    is a multiple of 100, and leaves the memo at least as it found it.
    Third, for a run that returned: the rules of the routine are, in the
    order of the walk, the rules of each sequence followed by the baseline
    rule, which applies the table held for rise 0; and any two sequences of
    the walk whose rises are filed under one value, as equal quantized
    aggregate rises are, have rules that all apply one and the same table,
    the one that the memo holds for that rise at the end of the run and
    that a further request returns without building anything. *)
Theorem tables_shared_within_run :
  (∀ r1 r2 s t s' s'',
     quantize r1 rise_quantization = r1 →
     quantize r2 rise_quantization = r2 →
     quantize r1 rise_quantization = quantize r2 rise_quantization →
     generate_kern_table_for_rise r1 s = Ok t s' →
     kern_at_rise s' ⊆ kern_at_rise s'' →
     generate_kern_table_for_rise r2 s'' = Ok t s'')
  ∧ (∀ i rules pp s rules' s',
       sequence_rules i rules pp s = Ok rules' s' →
       kern_at_rise s ⊆ kern_at_rise s'
       ∧ (0 ≤ tail_rise pp →
          quantize (clamped_rise pp) rise_quantization = clamped_rise pp
          ∧ ∃ t, generate_kern_table_for_rise (clamped_rise pp) s = Ok t s'))
  ∧ (∀ arg0 arg1 s routines s',
       NastaliqKerning_action arg0 arg1 s = Ok routines s' →
       ∃ medis bariye all_finas binned_medis binned_finas baseline,
         namedClasses !! "medis" = Some medis
         ∧ namedClasses !! "bariye" = Some bariye
         ∧ namedClasses !! "finas" = Some all_finas
         ∧ bin_glyphs_by_metric medis accuracy1 = Some binned_medis
         ∧ bin_glyphs_by_metric (filter (λ x, x ∉ bariye) all_finas) accuracy1
           = Some binned_finas
         ∧ kern_at_rise s' !! 0 = Some baseline
         ∧ rules <$> routines
           = [ (i ← Py.range_down maximum_word_length;
                pp ← all_options binned_finas binned_medis i;
                sequence_contribution i pp (kern_at_rise s')
                  (isols_finas s') (inits s'))
               ++ [Chaining [isols_finas s'] [isols s'] [Some [baseline]]] ]
         ∧ ∀ i1 pp1 i2 pp2,
             i1 ∈ Py.range_down maximum_word_length →
             i2 ∈ Py.range_down maximum_word_length →
             pp1 ∈ all_options binned_finas binned_medis i1 →
             pp2 ∈ all_options binned_finas binned_medis i2 →
             0 ≤ tail_rise pp1 → 0 ≤ tail_rise pp2 →
             clamped_rise pp1 = clamped_rise pp2 →
             ∃ t g1 g2,
               kern_at_rise s' !! clamped_rise pp1 = Some t
               ∧ generate_kern_table_for_rise (clamped_rise pp1) s' = Ok t s'
               ∧ sequence_contribution i1 pp1 (kern_at_rise s')
                   (isols_finas s') (inits s')
                 = emitted i1 (clamped_rise pp1) (kept_context i1 pp1) g1
                     (isols_finas s') (inits s') t
               ∧ sequence_contribution i2 pp2 (kern_at_rise s')
                   (isols_finas s') (inits s')
                 = emitted i2 (clamped_rise pp1) (kept_context i2 pp2) g2
                     (isols_finas s') (inits s') t
               ∧ ∀ rule,
                   rule ∈ emitted i1 (clamped_rise pp1) (kept_context i1 pp1)
                            g1 (isols_finas s') (inits s') t
                          ++ emitted i2 (clamped_rise pp1)
                               (kept_context i2 pp2) g2
                               (isols_finas s') (inits s') t →
                   ∃ ctx, rule = Chaining [isols_finas s'] ctx [Some [t]]).
Proof.
  split; [|split].
  - intros r1 r2 s t s' s'' Hq1 Hq2 Hq Hrun Hsub.
    assert (r2 = r1) as -> by congruence.
    apply generate_quantized_Ok in Hrun as (_ & Ht & _); [|done].
    apply generate_cached. by eapply lookup_weaken.
  - intros i rules pp s rules' s' Hrun.
    apply sequence_rules_step in Hrun as Hstep.
    destruct Hstep as (_ & Hsub & _). split; [done|]. intros Hpos.
    split; [apply clamped_rise_quantized|].
    apply sequence_rules_emits in Hrun as (t & _ & Hgen & _); [|done].
    by exists t.
  - intros arg0 arg1 s routines s' Hrun.
    pose proof (action_cached _ _ _ _ _ Hrun) as Hcached.
    apply action_Ok in Hrun
      as (ini & medis & bariye & all_isols & all_finas & bm & bf & t0 & Hini
          & Hmedis & Hbariye & Hisols & Hfinas & Hbm & Hbf & _ & _ & _ & _ & _
          & _ & Ht0 & ->).
    exists medis, bariye, all_finas, bm, bf, t0. do 6 (split; [done|]).
    split; [done|].
    intros i1 pp1 i2 pp2 Hi1 Hi2 Hpp1 Hpp2 Hpos1 Hpos2 Hclamp.
    destruct (Hcached _ _ _ _ _ Hmedis Hbariye Hfinas Hbm Hbf i1 pp1 Hi1 Hpp1
                Hpos1) as [[t Ht] [g1 Hg1]].
    destruct (Hcached _ _ _ _ _ Hmedis Hbariye Hfinas Hbm Hbf i2 pp2 Hi2 Hpp2
                Hpos2) as [_ [g2 Hg2]].
    exists t, g1, g2. split; [done|]. split; [by apply generate_cached|].
    unfold sequence_contribution. rewrite <-Hclamp, Ht, Hg1, Hg2.
    rewrite !(proj2 (Z.ltb_ge _ _)) by done. split; [done|]. split; [done|].
    intros rule [Hin|Hin]%elem_of_app;
      apply emitted_shape in Hin as [innermost ->]; by eexists.
Qed.

(** X8.  When [NastaliqKerning.action] returns, the verb object holds a
    kern table for rise 0, and holds tables for no rise other than 0, 100,
    200, 300, 400, 500 and 600: at most seven in all, however many sequences
    of bins were walked. *)
Theorem kern_tables_at_seven_rises arg0 arg1 s routines s' :
  NastaliqKerning_action arg0 arg1 s = Ok routines s' →
  (∀ k, is_Some (kern_at_rise s' !! k) →
        k ∈ [0; 100; 200; 300; 400; 500; 600])
  ∧ is_Some (kern_at_rise s' !! 0)
  ∧ (size (kern_at_rise s') ≤ 7)%nat.
Proof.
  intros Hrun.
  apply action_Ok in Hrun
    as (ini & medis & bariye & all_isols & all_finas & bm & bf & t & _ & _ & _
        & _ & _ & _ & _ & _ & _ & _ & _ & _ & Hkeys & Ht & _).
  assert (Hin : ∀ k, is_Some (kern_at_rise s' !! k) → k ∈ rises).
  { intros k [t' Hk]. by eapply Hkeys. }
  split; [done|]. split; [by eexists|].
  rewrite <-size_dom.
  assert (dom (kern_at_rise s') ⊆ (list_to_set rises : gset Z)) as Hdom.
  { intros k Hk%elem_of_dom. apply elem_of_list_to_set. by apply Hin. }
  apply subseteq_size in Hdom. etrans; [exact Hdom|].
  by vm_compute.
Qed.

(** X9.  When [NastaliqKerning.action] returns, the verb object holds the
    first argument as the base distance and the second as a percentage, the
    class [inits] as it was read, and the class [isols] without the glyphs
    of [bariye]; its right glyphs are, without duplicates, exactly the
    glyphs of [isols], [finas] and [bariye]. *)
Theorem action_reads_classes arg0 arg1 s routines s' :
  NastaliqKerning_action arg0 arg1 s = Ok routines s' →
  ∃ ini bariye all_isols all_finas,
    namedClasses !! "inits" = Some ini
    ∧ namedClasses !! "bariye" = Some bariye
    ∧ namedClasses !! "isols" = Some all_isols
    ∧ namedClasses !! "finas" = Some all_finas
    ∧ distance_at_closest s' = arg0 ∧ maxtuck s' = percent arg1
    ∧ inits s' = ini
    ∧ isols s' = filter (λ x, x ∉ bariye) all_isols
    ∧ NoDup (isols_finas s')
    ∧ ∀ g, g ∈ isols_finas s'
           ↔ g ∈ all_isols ∨ g ∈ all_finas ∨ g ∈ bariye.
Proof.
  intros Hrun.
  apply action_Ok in Hrun
    as (ini & medis & bariye & all_isols & all_finas & bm & bf & t & Hini
        & Hmedis & Hbariye & Hisols & Hfinas & Hbm & Hbf & Hd & Hmt & Hini'
        & Hiso' & Hfin' & _).
  exists ini, bariye, all_isols, all_finas. do 8 (split; [done|]).
  rewrite Hfin'. unfold Py.set_union. split; [apply NoDup_elements|].
  intros g. rewrite elem_of_elements, elem_of_union, !elem_of_list_to_set,
    elem_of_app, !list_elem_of_filter.
  destruct (decide (g ∈ bariye)); tauto.
Qed.

Lemma length_emitted i rise ctx g rights ini t :
  (1 ≤ length (emitted i rise ctx g rights ini t) ≤ 3)%nat.
Proof.
  unfold emitted. rewrite !length_app.
  destruct (_ && blocked g), (_ && bool_decide (4 < i)%nat); simpl; lia.
Qed.

(** X7.  The body of the main loop only appends to the rules, and at most
    three of them for a sequence.  It appends none exactly when the
    aggregate rise of the sequence is below -50, which is when the
    quantized rise is negative; such a sequence leaves the state as it was:
    no table is built for it. *)
Theorem sequence_rules_appends i rules pp s rules' s' :
  sequence_rules i rules pp s = Ok rules' s' →
  ∃ new, rules' = rules ++ new
         ∧ (length new ≤ 3)%nat
         ∧ (new = [] ↔ Py.sum (snd <$> pp) < -50)
         ∧ (new = [] → s' = s).
Proof.
  intros Hrun. pose proof (quantize_neg (Py.sum (snd <$> pp))) as Hneg.
  fold (tail_rise pp) in Hneg.
  apply sequence_rules_Ok in Hrun
    as [(Hlt & -> & ->)|(Hge & rise & ctx & t & g & _ & _ & _ & ->)].
  - exists []. rewrite app_nil_r. split; [done|]. split; [simpl; lia|].
    split; [|done]. split; [intros _; by apply Hneg|done].
  - eexists. split; [done|].
    pose proof (length_emitted i rise ctx g (isols_finas s) (inits s) t) as Hlen.
    split; [lia|].
    assert (emitted i rise ctx g (isols_finas s) (inits s) t ≠ []) as Hne.
    { intros Hnil. rewrite Hnil in Hlen. simpl in Hlen. lia. }
    split; [|done]. split; [done|]. intros Hlt%Hneg. lia.
Qed.

(** ** The shelf and the memo tables over a run *)

Lemma shelf_kept_determine_kern_cached g1 g2 td h mt :
  keeps shelf_kept (determine_kern_cached g1 g2 td h mt).
Proof.
  intros s. pose proof (grows_determine_kern_cached g1 g2 td h mt s) as Hg.
  destruct (determine_kern_cached g1 g2 td h mt s); apply Hg.
Qed.
Hint Resolve shelf_kept_determine_kern_cached : keeps.

Lemma shelf_kept_generate r : keeps shelf_kept (generate_kern_table_for_rise r).
Proof.
  unfold generate_kern_table_for_rise, kern_row, kern_pair, ink_to_ink_at,
    ink_to_ink_pair, referenceRoutine, alloc.
  keeps_with ltac:(by unfold shelf_kept).
Qed.
Hint Resolve shelf_kept_generate : keeps.

(** X11.  Whether it returns or raises, a run of [NastaliqKerning.action]
    neither removes nor overwrites an entry of the kern cache: what the
    shelf held under a key before the run, it holds after. *)
Theorem action_keeps_shelf_entries arg0 arg1 s k v :
  shelve s !! k = Some v →
  shelve (final_state (NastaliqKerning_action arg0 arg1 s)) !! k = Some v.
Proof.
  intros Hk.
  assert (keeps shelf_kept (NastaliqKerning_action arg0 arg1)) as Hkeeps.
  { unfold NastaliqKerning_action, sequence_rules, shelve_open, shelve_close.
    keeps_with ltac:(by unfold shelf_kept). }
  specialize (Hkeeps s). unfold final_state.
  destruct (NastaliqKerning_action arg0 arg1 s); by eapply lookup_weaken.
Qed.

Lemma same_solver_ink r : keeps same_solver (ink_to_ink_at r).
Proof.
  unfold ink_to_ink_at, ink_to_ink_pair, referenceRoutine, alloc. keeps.
Qed.

(** X15.  A table built by [generate_kern_table_for_rise] for an argument
    [r] is filed under [r] quantized to a multiple of 100: a later call with
    the quantized rise returns the same reference and changes nothing. *)
Theorem table_found_under_quantized_rise r s t s' :
  generate_kern_table_for_rise r s = Ok t s' →
  kern_at_rise s !! r = None →
  kern_at_rise s' !! quantize r rise_quantization = Some t
  ∧ generate_kern_table_for_rise (quantize r rise_quantization) s' = Ok t s'.
Proof.
  intros Hrun Hc.
  destruct (generate_fresh_Ok r s t s' Hc Hrun)
    as (_ & _ & _ & _ & _ & _ & Hkern & _).
  assert (kern_at_rise s' !! quantize r rise_quantization = Some t) as Ht.
  { rewrite Hkern. apply lookup_insert_eq. }
  split; [done|].
  unfold generate_kern_table_for_rise.
  unfold mbind, M_bind, get. cbv beta. by rewrite Ht.
Qed.

(** X17.  [ink_to_ink_at] is memoized on its argument as it is passed: after
    a call that returned, a second call with the same rise returns the same
    reference and changes nothing.  A call for a rise not yet cached creates
    the routine as the newest object and registers it with the feature
    file. *)
Theorem ink_to_ink_memoized r s t s' :
  ink_to_ink_at r s = Ok t s' →
  ink_to_ink_routines s' !! r = Some t
  ∧ ink_to_ink_at r s' = Ok t s'
  ∧ (ink_to_ink_routines s !! r = None → t = length (heap s)
       ∧ ff_routines s' = ff_routines s ++ [t]).
Proof.
  intros Hrun.
  assert (ink_to_ink_routines s' !! r = Some t) as Ht
    by by apply ink_to_ink_at_Ok in Hrun as [? _].
  split; [done|]. split.
  - pose proof (ink_to_ink_at_run r s') as Hspec. by rewrite Ht in Hspec.
  - intros Hc. pose proof (ink_to_ink_at_run r s) as Hspec.
    rewrite Hc in Hspec.
    destruct (ink_to_ink_rules r s s); simpl in Hspec; rewrite Hspec in Hrun;
      [|done].
    by injection Hrun as <- <-.
Qed.
Lemma ink_to_ink_at_Err r s s' : ink_to_ink_at r s = Err s' → s' = s.
Proof.
  pose proof (ink_to_ink_at_run r s) as Hspec.
  destruct (ink_to_ink_routines s !! r); [by rewrite Hspec|].
  destruct (ink_to_ink_rules r s s); simpl in Hspec; rewrite Hspec; [done|].
  by intros [= <-].
Qed.

Lemma ink_inner_total d r right lefts rules s :
  (∀ left, left ∈ lefts → is_Some (glyph_rsb left)) →
  is_Some (glyph_lsb right) →
  succeeded (for_each lefts rules
               (ink_to_ink_pair (tapered_distance d r) right) s) = true.
Proof.
  intros Hrsb [lsb Hlsb]. revert rules s.
  induction lefts as [|left lefts IH]; intros rules s; simpl; [done|].
  destruct (Hrsb left) as [rsb Hr]; [by left|].
  unfold mbind at 1, M_bind at 1.
  assert (∃ rules1, ink_to_ink_pair (tapered_distance d r) right rules left s
                    = Ok rules1 s) as [rules1 ->].
  { unfold ink_to_ink_pair. rewrite Hr, Hlsb. simpl.
    unfold mbind, M_bind, mret, M_ret. case_decide; by eexists. }
  apply IH. intros left' Hin. apply Hrsb. by right.
Qed.

Lemma ink_outer_total d r rights lefts rules s :
  (∀ right left, right ∈ rights → left ∈ lefts →
     is_Some (glyph_rsb left) ∧ is_Some (glyph_lsb right)) →
  succeeded (for_each rights rules (λ rules right,
    for_each lefts rules (ink_to_ink_pair (tapered_distance d r) right)) s)
  = true.
Proof.
  intros Hdef. revert rules s.
  induction rights as [|right rights IH]; intros rules s; simpl; [done|].
  unfold mbind at 1, M_bind at 1.
  destruct lefts as [|left0 lefts'] eqn:Hlefts.
  { simpl. apply IH. by intros ?? _ ?%elem_of_nil. }
  rewrite <-Hlefts in *.
  pose proof (ink_inner_total d r right lefts rules s) as Hin.
  destruct (for_each lefts rules _ s) as [rules1 s1|s1] eqn:Hrow.
  - apply IH. intros right' left Hr Hl. apply Hdef; [by right|done].
  - exfalso. enough (false = true) by done. apply Hin.
    + intros left Hl. apply (Hdef right left); [by left|done].
    + apply (Hdef right left0); [by left|]. rewrite Hlefts. by left.
Qed.

Lemma ink_to_ink_at_total r s :
  (∀ right left, right ∈ isols_finas s → left ∈ inits s ++ isols s →
     is_Some (glyph_rsb left) ∧ is_Some (glyph_lsb right)) →
  succeeded (ink_to_ink_at r s) = true.
Proof.
  intros Hdef. pose proof (ink_to_ink_at_run r s) as Hspec.
  destruct (ink_to_ink_routines s !! r) as [t|]; [by rewrite Hspec|].
  pose proof (ink_outer_total (distance_at_closest s) r (isols_finas s)
                (inits s ++ isols s) [] s Hdef) as Htotal.
  fold (ink_to_ink_rules r s s) in Htotal.
  destruct (ink_to_ink_rules r s s); simpl in Hspec; by rewrite Hspec.
Qed.

(** X18.  [ink_to_ink_at] returns exactly when the rise is cached or every
    pair of a right glyph (finals and isolates) and a left glyph (initials
    and isolates) has its bearings: the right side bearing of the left
    glyph and the left side bearing of the right glyph.  When it raises it
    leaves the state as it was: nothing is cached or registered. *)
Theorem ink_to_ink_raises_iff r s :
  (succeeded (ink_to_ink_at r s) = true
   ↔ is_Some (ink_to_ink_routines s !! r)
     ∨ ∀ right left, right ∈ isols_finas s → left ∈ inits s ++ isols s →
         is_Some (glyph_rsb left) ∧ is_Some (glyph_lsb right))
  ∧ (succeeded (ink_to_ink_at r s) = false →
     final_state (ink_to_ink_at r s) = s).
Proof.
  pose proof (ink_to_ink_at_run r s) as Hspec.
  destruct (ink_to_ink_routines s !! r) as [t|] eqn:Hc.
  { rewrite Hspec. simpl. split; [|done]. split; [by left; eexists|done]. }
  pose proof (ink_outer_total (distance_at_closest s) r (isols_finas s)
                (inits s ++ isols s) [] s) as Htotal.
  fold (ink_to_ink_rules r s s) in Htotal.
  destruct (ink_to_ink_rules r s s) as [ink_rules s1|s1] eqn:Hloop;
    simpl in Hspec; rewrite Hspec; simpl.
  - split; [|done]. split; [|done]. intros _. right.
    by apply ink_outer_loop in Hloop as [Hdef _].
  - split; [|done]. split; [done|].
    intros [[? [=]]|Hdef]. by apply Htotal.
Qed.

(** ** The solver is asked once for a key *)

Section preserves.
Context (I J : State → Prop) (HIJ : ∀ s, I s → J s).

Lemma preserves_ret {A} (a : A) : preserves I J (mret a).
Proof. by intros s Hs. Qed.

Lemma preserves_raise {A} : preserves I J (raise (A := A)).
Proof. intros s Hs. by apply HIJ. Qed.

Lemma preserves_get {A} (f : State → A) : preserves I J (get f).
Proof. by intros s Hs. Qed.

Lemma preserves_or_raise {A} (o : option A) : preserves I J (or_raise o).
Proof. destruct o; [apply preserves_ret | apply preserves_raise]. Qed.

Lemma preserves_modify (f : State → State) :
  (∀ s, I s → I (f s)) → preserves I J (modify f).
Proof. intros Hf s Hs. by apply Hf. Qed.

Lemma preserves_bind {A B} (m : M A) (f : A → M B) :
  preserves I J m → (∀ a, preserves I J (f a)) → preserves I J (m ≫= f).
Proof.
  intros Hm Hf s Hs. unfold mbind, M_bind. specialize (Hm s Hs).
  destruct (m s) as [a s1|s1]; [|done]. by apply Hf.
Qed.

Lemma preserves_for_each {A B} (xs : list A) (acc : B) body :
  (∀ acc x, preserves I J (body acc x)) →
  preserves I J (for_each xs acc body).
Proof.
  intros Hbody. revert acc. induction xs as [|x xs IH]; intros acc; simpl.
  - apply preserves_ret.
  - apply preserves_bind; [apply Hbody | intros; apply IH].
Qed.

End preserves.

Lemma called_once_of_answers_kept sh0 s :
  answers_kept sh0 s → called_once sh0 s.
Proof. by intros [? _]. Qed.

Lemma answers_kept_determine_kern_cached sh0 g1 g2 td h mt :
  preserves (answers_kept sh0) (called_once sh0)
            (determine_kern_cached g1 g2 td h mt).
Proof.
  intros s ((Hdup & Hnew) & Hsub & Hans).
  pose proof (determine_kern_cached_run g1 g2 td h mt s) as Hrun.
  simpl in Hrun.
  destruct (shelve s !! cache_key g1 g2 td h mt) as [v|] eqn:Hs.
  { by rewrite Hrun. }
  assert (called_once sh0
            (log_solver_call
               {| left_glyph := g1; right_glyph := g2; target_closeness := td;
                  at_height := h; tuck := mt |} s)) as Hcalled.
  { split; simpl.
    - apply NoDup_cons. split; [|done].
      intros (c & Hkey & Hc)%list_elem_of_fmap.
      destruct (Hans c Hc) as [v Hv]. rewrite <-Hkey in Hv.
      unfold call_key in Hv. simpl in Hv. congruence.
    - intros c [->|Hc]%elem_of_cons; [|by apply Hnew].
      unfold call_key. simpl. by eapply lookup_weaken_None. }
  destruct (determine_kern g1 g2 td h mt) as [v|]; rewrite Hrun; [|done].
  split; [done|]. simpl. split.
  - etrans; [done|]. by apply insert_subseteq.
  - intros c [->|Hc]%elem_of_cons.
    + unfold call_key. simpl. rewrite lookup_insert_eq. by eexists.
    + destruct (Hans c Hc) as [w Hw].
      destruct (decide (cache_key g1 g2 td h mt = call_key c)) as [->|Hne].
      * rewrite lookup_insert_eq. by eexists.
      * rewrite lookup_insert_ne by done. by eexists.
Qed.

Ltac preserves_step :=
  first
    [ apply preserves_ret
    | apply preserves_raise; apply called_once_of_answers_kept
    | apply preserves_get
    | apply preserves_or_raise; apply called_once_of_answers_kept
    | apply answers_kept_determine_kern_cached
    | apply preserves_modify; intros ? ?; assumption
    | apply preserves_for_each; intros ? ?
    | apply preserves_bind; [|intros ?]
    | progress simpl
    | case_match ].

Lemma answers_kept_action sh0 arg0 arg1 :
  preserves (answers_kept sh0) (called_once sh0)
            (NastaliqKerning_action arg0 arg1).
Proof.
  unfold NastaliqKerning_action, sequence_rules, shelve_open, shelve_close,
    generate_kern_table_for_rise, kern_row, kern_pair, ink_to_ink_at,
    ink_to_ink_pair, referenceRoutine, alloc.
  repeat preserves_step.
Qed.

(** X12.  In a run of [NastaliqKerning.action] that starts with an empty
    log of solver calls, whether it returns or raises, the solver is called
    at most once for a cache key, and never for a key that the shelf held
    when the run began. *)
Theorem solver_called_once_per_key arg0 arg1 s :
  solver_calls s = [] →
  NoDup (call_key <$> solver_calls
                        (final_state (NastaliqKerning_action arg0 arg1 s)))
  ∧ ∀ c,
      c ∈ solver_calls (final_state (NastaliqKerning_action arg0 arg1 s)) →
      shelve s !! call_key c = None.
Proof.
  intros Hempty.
  assert (answers_kept (shelve s) s) as Hs.
  { unfold answers_kept, called_once. rewrite Hempty.
    split; [split; [constructor|by intros ? ?%elem_of_nil]|].
    split; [done|by intros ? ?%elem_of_nil]. }
  pose proof (answers_kept_action (shelve s) arg0 arg1 s Hs) as Hrun.
  destruct (NastaliqKerning_action arg0 arg1 s); simpl; [|done].
  by apply called_once_of_answers_kept.
Qed.

End run.

(** ** The kern table *)

Lemma dget_dset_eq `{EqDecision K} {V} (k : K) (v : V) d :
  Py.dget k (Py.dset k v d) = Some v.
Proof.
  induction d as [|[k' v'] d IH]; simpl.
  - by rewrite decide_True.
  - destruct (decide (k = k')) as [->|Hne]; simpl.
    + by rewrite decide_True.
    + by rewrite decide_False.
Qed.

Lemma dget_dset_ne `{EqDecision K} {V} (k k' : K) (v : V) d :
  k ≠ k' → Py.dget k' (Py.dset k v d) = Py.dget k' d.
Proof.
  intros Hne. induction d as [|[k0 v0] d IH]; simpl.
  - by rewrite decide_False.
  - destruct (decide (k = k0)) as [->|Hne0]; simpl.
    + by rewrite !decide_False.
    + by rewrite IH.
Qed.

Section kern_loops.
Context `{Externals}.
Context (d r : Z) (mt : Float).

Lemma recorded_weaken sh sh' i e :
  sh ⊆ sh' → is_Some (sh !! cache_key i e d r mt) →
  recorded d r mt sh' i e = recorded d r mt sh i e.
Proof.
  intros Hsub [kern Hk]. unfold recorded.
  by rewrite Hk, (lookup_weaken _ _ _ _ Hk Hsub).
Qed.

Lemma determine_kern_cached_Ok g1 g2 s kern s' :
  determine_kern_cached g1 g2 d r mt s = Ok kern s' →
  shelve s ⊆ shelve s' ∧ shelve s' !! cache_key g1 g2 d r mt = Some kern.
Proof.
  intros Hrun.
  pose proof (determine_kern_cached_run g1 g2 d r mt s) as Hspec.
  simpl in Hspec.
  destruct (shelve s !! cache_key g1 g2 d r mt) as [v|] eqn:Hs.
  - rewrite Hspec in Hrun. by injection Hrun as <- <-.
  - destruct (determine_kern g1 g2 d r mt) as [v|]; rewrite Hspec in Hrun;
      [|done].
    injection Hrun as <- <-. simpl.
    split; [by apply insert_subseteq|apply lookup_insert_eq].
Qed.

Lemma kern_pair_Ok e kt i s kt' s' :
  kern_pair d r mt e kt i s = Ok kt' s' →
  ∃ kern,
    shelve s ⊆ shelve s'
    ∧ shelve s' !! cache_key i e d r mt = Some kern
    ∧ if kern <? -10
      then ∃ row, Py.dget e kt = Some row
                  ∧ kt' = Py.dset e (Py.dset i (quantize kern kern_quantization)
                                       row) kt
      else kt' = kt.
Proof.
  unfold kern_pair. intros Hrun.
  apply bind_Ok in Hrun as (kern & s1 & Hkern & Hrun).
  apply determine_kern_cached_Ok in Hkern as [Hsub Hkern].
  exists kern. destruct (kern <? -10).
  - apply bind_Ok in Hrun as (row & s2 & Hrow & Hrun).
    apply or_raise_Ok in Hrow as [Hrow ->].
    injection Hrun as <- <-. eauto.
  - by injection Hrun as <- <-.
Qed.

Lemma kern_row_loop e lefts : ∀ done kt s kt' s' row,
  for_each lefts kt (kern_pair d r mt e) s = Ok kt' s' →
  Py.dget e kt = Some row →
  (∀ i, i ∈ done → is_Some (shelve s !! cache_key i e d r mt)) →
  (∀ i, Py.dget i row
        = if decide (i ∈ done) then recorded d r mt (shelve s) i e else None) →
  shelve s ⊆ shelve s'
  ∧ (∀ e', e' ≠ e → Py.dget e' kt' = Py.dget e' kt)
  ∧ ∃ row',
      Py.dget e kt' = Some row'
      ∧ (∀ i, i ∈ done ++ lefts → is_Some (shelve s' !! cache_key i e d r mt))
      ∧ ∀ i, Py.dget i row'
             = if decide (i ∈ done ++ lefts) then recorded d r mt (shelve s') i e
               else None.
Proof.
  induction lefts as [|i0 lefts IH]; intros done kt s kt' s' row; simpl.
  { intros [= <- <-] Hrow Hkeys Hrec. split; [done|]. split; [done|].
    exists row. rewrite app_nil_r. done. }
  intros Hrun Hrow Hkeys Hrec.
  apply bind_Ok in Hrun as (kt1 & s1 & Hpair & Hrun).
  apply kern_pair_Ok in Hpair as (kern & Hsub & Hkern & Hkt1).
  assert (Hkeys1 : ∀ i, i ∈ done ++ [i0] →
                     is_Some (shelve s1 !! cache_key i e d r mt)).
  { intros i [Hi| ->%list_elem_of_singleton]%elem_of_app; [|by eexists].
    destruct (Hkeys i Hi) as [v Hv]. exists v. by eapply lookup_weaken. }
  assert (∃ row1, Py.dget e kt1 = Some row1
            ∧ (∀ e', e' ≠ e → Py.dget e' kt1 = Py.dget e' kt)
            ∧ ∀ i, Py.dget i row1
                   = if decide (i ∈ done ++ [i0])
                     then recorded d r mt (shelve s1) i e else None)
    as (row1 & Hrow1 & Hother1 & Hrec1).
  { assert (Hrec0 : recorded d r mt (shelve s1) i0 e
                    = if kern <? -10
                      then Some (quantize kern kern_quantization) else None).
    { unfold recorded. by rewrite Hkern. }
    assert (Hold : ∀ i, i ∈ done →
                     recorded d r mt (shelve s1) i e = recorded d r mt (shelve s) i e).
    { intros i Hi. apply recorded_weaken; auto. }
    destruct (kern <? -10) eqn:Hlt.
    - destruct Hkt1 as (row0 & Hrow0 & ->). simplify_eq.
      eexists. split; [apply dget_dset_eq|].
      split; [by intros e' He'; apply dget_dset_ne|].
      intros i. destruct (decide (i = i0)) as [->|Hne].
      + rewrite dget_dset_eq, decide_True; [done|].
        apply elem_of_app. right. by apply list_elem_of_singleton.
      + rewrite dget_dset_ne by done. rewrite Hrec.
        destruct (decide (i ∈ done)) as [Hi|Hi].
        * rewrite decide_True by (apply elem_of_app; by left). by rewrite Hold.
        * rewrite decide_False; [done|].
          intros [?| ?%list_elem_of_singleton]%elem_of_app; done.
    - subst kt1. exists row. split; [done|]. split; [done|].
      intros i. rewrite Hrec.
      destruct (decide (i ∈ done)) as [Hi|Hi].
      + rewrite decide_True by (apply elem_of_app; by left). by rewrite Hold.
      + destruct (decide (i = i0)) as [->|Hne].
        * rewrite decide_True; [done|].
          apply elem_of_app. right. by apply list_elem_of_singleton.
        * rewrite decide_False; [done|].
          intros [?| ?%list_elem_of_singleton]%elem_of_app; done. }
  destruct (IH (done ++ [i0]) kt1 s1 kt' s' row1 Hrun Hrow1 Hkeys1 Hrec1)
    as (Hsub' & Hother' & row' & Hrow' & Hkeys' & Hrec').
  rewrite <-app_assoc in Hkeys', Hrec'. simpl in Hkeys', Hrec'.
  split; [by etrans|]. split; [|by eauto].
  intros e' He'. by rewrite Hother', Hother1.
Qed.

Lemma elem_of_sorted x xs : x ∈ Py.sorted xs ↔ x ∈ xs.
Proof. unfold Py.sorted. by rewrite merge_sort_Permutation. Qed.

Lemma row_complete_weaken ends kt kt' sh sh' e :
  sh ⊆ sh' → Py.dget e kt' = Py.dget e kt →
  row_complete d r mt ends kt sh e → row_complete d r mt ends kt' sh' e.
Proof.
  intros Hsub Hkt (Hkeys & row & Hrow & Hrec). split.
  - intros i Hi. destruct (Hkeys i Hi) as [v Hv]. exists v.
    by eapply lookup_weaken.
  - exists row. split; [congruence|]. intros i. rewrite Hrec.
    case_decide; [|done]. symmetry. apply recorded_weaken; auto.
Qed.

Lemma kern_row_Ok ends kt e s kt' s' :
  kern_row d r mt ends kt e s = Ok kt' s' →
  shelve s ⊆ shelve s'
  ∧ (∀ e', e' ≠ e → Py.dget e' kt' = Py.dget e' kt)
  ∧ row_complete d r mt ends kt' (shelve s') e.
Proof.
  unfold kern_row. intros Hrun.
  eapply (kern_row_loop e _ [] _ _ _ _ []) in Hrun
    as (Hsub & Hother & row' & Hrow' & Hkeys & Hrec).
  - split; [done|]. split.
    + intros e' He'. rewrite Hother by done. by apply dget_dset_ne.
    + split.
      * intros i Hi. apply Hkeys. simpl. by apply elem_of_sorted.
      * exists row'. split; [done|]. intros i. rewrite Hrec. simpl.
        destruct (decide (i ∈ ends)) as [Hi|Hi].
        -- rewrite decide_True; [done|]. by apply elem_of_sorted.
        -- rewrite decide_False; [done|]. by rewrite elem_of_sorted.
  - apply dget_dset_eq.
  - by intros i ?%elem_of_nil.
  - intros i. by rewrite decide_False by apply not_elem_of_nil.
Qed.

Lemma kern_table_loop ends rights : ∀ kt s kt' s',
  for_each rights kt (kern_row d r mt ends) s = Ok kt' s' →
  shelve s ⊆ shelve s'
  ∧ (∀ e, e ∈ rights → row_complete d r mt ends kt' (shelve s') e)
  ∧ (∀ e, e ∉ rights → Py.dget e kt' = Py.dget e kt).
Proof.
  induction rights as [|e0 rights IH]; intros kt s kt' s'; simpl.
  { intros [= <- <-]. split; [done|]. split; [by intros e ?%elem_of_nil|done]. }
  intros Hrun. apply bind_Ok in Hrun as (kt1 & s1 & Hrow & Hrun).
  apply kern_row_Ok in Hrow as (Hsub1 & Hother1 & Hdone1).
  apply IH in Hrun as (Hsub & Hdone & Hother).
  split; [by etrans|]. split.
  - intros e [->|He]%elem_of_cons; [|by apply Hdone].
    destruct (decide (e0 ∈ rights)) as [Hin|Hout]; [by apply Hdone|].
    eapply row_complete_weaken; [done| |done]. by apply Hother.
  - intros e [Hne Hout]%not_elem_of_cons. rewrite Hother by done.
    by apply Hother1.
Qed.

Lemma solved_for_refl P s : solved_for d r mt P s s.
Proof. intros k v Hk. by left. Qed.

Lemma solved_for_trans P s1 s2 s3 :
  solved_for d r mt P s1 s2 → solved_for d r mt P s2 s3 → solved_for d r mt P s1 s3.
Proof.
  intros H12 H23 k v Hk. destruct (H23 k v Hk) as [Hk2|?]; [|by right].
  by apply H12.
Qed.

Lemma kern_pair_solved (P : glyph → glyph → Prop) e kt i s kt' s' :
  P i e → kern_pair d r mt e kt i s = Ok kt' s' → solved_for d r mt P s s'.
Proof.
  intros HP Hrun. unfold kern_pair in Hrun.
  apply bind_Ok in Hrun as (kern & s1 & Hkern & Hrun).
  assert (s' = s1) as ->.
  { destruct (kern <? -10).
    - apply bind_Ok in Hrun as (row & s2 & Hrow & Hrun).
      apply or_raise_Ok in Hrow as [_ ->]. by injection Hrun as _ <-.
    - by injection Hrun as _ <-. }
  pose proof (determine_kern_cached_run i e d r mt s) as Hspec.
  simpl in Hspec.
  destruct (shelve s !! cache_key i e d r mt) as [v|] eqn:Hs.
  - rewrite Hspec in Hkern. injection Hkern as <- <-. apply solved_for_refl.
  - destruct (determine_kern i e d r mt) as [v|] eqn:Hsolve;
      rewrite Hspec in Hkern; [|done].
    injection Hkern as <- <-. intros k w. simpl.
    destruct (decide (cache_key i e d r mt = k)) as [<-|Hne].
    + rewrite lookup_insert_eq. intros [= <-]. right. eauto.
    + rewrite lookup_insert_ne by done. by left.
Qed.

Lemma kern_row_solved (P : glyph → glyph → Prop) e lefts : ∀ kt s kt' s',
  (∀ i, i ∈ lefts → P i e) →
  for_each lefts kt (kern_pair d r mt e) s = Ok kt' s' →
  solved_for d r mt P s s'.
Proof.
  induction lefts as [|i lefts IH]; intros kt s kt' s' HP; simpl.
  - intros [= <- <-]. apply solved_for_refl.
  - intros Hrun. apply bind_Ok in Hrun as (kt1 & s1 & Hpair & Hrun).
    eapply solved_for_trans.
    + eapply kern_pair_solved; [|done]. apply HP. by left.
    + eapply IH; [|done]. intros j Hj. apply HP. by right.
Qed.

Lemma kern_rows_solved (P : glyph → glyph → Prop) ends rights :
  ∀ kt s kt' s',
  (∀ i e, i ∈ ends → e ∈ rights → P i e) →
  for_each rights kt (kern_row d r mt ends) s = Ok kt' s' →
  solved_for d r mt P s s'.
Proof.
  induction rights as [|e rights IH]; intros kt s kt' s' HP; simpl.
  - intros [= <- <-]. apply solved_for_refl.
  - intros Hrun. apply bind_Ok in Hrun as (kt1 & s1 & Hr & Hrun).
    eapply solved_for_trans.
    + unfold kern_row in Hr. eapply kern_row_solved; cycle 1; [exact Hr|].
      intros i Hi. apply (proj1 (elem_of_sorted _ _)) in Hi.
      apply HP; [done|by left].
    + eapply IH; [|done]. intros i f Hi Hf. apply HP; [done|by right].
Qed.

End kern_loops.

Section kern_table.
Context `{Externals}.

(** The table that the loops return. *)
Lemma build_kerntable_records q s kerntable s' e i :
  build_kerntable q s s = Ok kerntable s' →
  e ∈ isols_finas s → i ∈ left_candidates s q →
  let d := distance_at_closest s in
  let mt := maxtuck s in
  ∃ kern,
    shelve s' !! cache_key i e d q mt = Some kern
    ∧ (shelve s !! cache_key i e d q mt = None →
       (∀ g, g ∈ isols_finas s ++ left_candidates s q →
             Py.contains "/" g = false) →
       determine_kern i e d q mt = Some kern)
    ∧ (Py.dget e kerntable ≫= Py.dget i)
      = (if kern <? -10 then Some (quantize kern kern_quantization) else None).
Proof.
  intros Hrun He Hi d mt. unfold build_kerntable in Hrun. fold d mt in Hrun.
  assert (Hsolved : solved_for d q mt
            (λ i e, i ∈ left_candidates s q ∧ e ∈ isols_finas s) s s').
  { eapply kern_rows_solved; [|exact Hrun]. by intros. }
  apply kern_table_loop in Hrun as (Hsub & Hdone & _).
  destruct (Hdone e He) as (Hkeys & row & Hrow & Hrec).
  destruct (Hkeys i Hi) as [kern Hkern]. exists kern.
  split; [done|]. split.
  { intros Hnone Hslash.
    destruct (Hsolved _ _ Hkern) as [Hold|(j & f & [Hj Hf] & Hkey & Hsol)].
    { fold d mt in Hold. congruence. }
    apply cache_key_inj in Hkey as (-> & -> & _); [done|..];
      apply Hslash; apply elem_of_app; auto. }
  rewrite Hrow. simpl. rewrite Hrec, decide_True by done.
  unfold recorded. by rewrite Hkern.
Qed.

Lemma generate_fresh_shelf r s t s' kerntable s1 :
  kern_at_rise s !! r = None →
  generate_kern_table_for_rise r s = Ok t s' →
  build_kerntable (quantize r rise_quantization) s s = Ok kerntable s1 →
  shelve s1 ⊆ shelve s'.
Proof.
  intros Hc Hrun Hbuild. rewrite (generate_fresh_run r s Hc) in Hrun.
  cbv zeta in Hrun. rewrite Hbuild in Hrun.
  destruct (namedClasses !! "all_above_marks") as [marks|]; [|done].
  destruct (400 <=? _).
  - by injection Hrun as <- <-.
  - set (s2 := push_reference _ _) in Hrun.
    pose proof (grows_ink_to_ink_at (quantize r rise_quantization) s2)
      as Hgrow.
    destruct (ink_to_ink_at _ s2) as [ink s3|s3]; [|done].
    destruct Hgrow as (_ & Hshelf & _). by injection Hrun as <- <-.
Qed.

(** C3.  For every pair examined while [generate_kern_table_for_rise]
    builds the kern table of a rise, a right glyph [e] of the finals and
    isolates and a left candidate [i], let [kern] be the adjustment the
    kern cache yields for the pair (the solver's own answer when the shelf
    had no entry under the key and no glyph name holds a ['/']).  The table
    of the routine [kern_at_q] has an entry for the pair exactly when
    [kern < -10], and the entry is [kern] quantized to a step of 10: -5
    leaves no entry, -15 is recorded as -20. *)
Theorem recorded_iff_below_threshold r s t s' e i :
  kern_at_rise s !! r = None →
  generate_kern_table_for_rise r s = Ok t s' →
  let q := quantize r rise_quantization in
  let d := distance_at_closest s in
  let mt := maxtuck s in
  e ∈ isols_finas s → i ∈ left_candidates s q →
  ∃ kerntable abovemarks kern,
    heap s' !! length (heap s) = Some (kern_routine q kerntable abovemarks)
    ∧ determine_kern_cached i e d q mt s' = Ok kern s'
    ∧ (shelve s !! cache_key i e d q mt = None →
       (∀ g, g ∈ isols_finas s ++ left_candidates s q →
             Py.contains "/" g = false) →
       determine_kern i e d q mt = Some kern)
    ∧ (Py.dget e kerntable ≫= Py.dget i)
      = (if kern <? -10 then Some (quantize kern kern_quantization) else None)
    ∧ (is_Some (Py.dget e kerntable ≫= Py.dget i) ↔ kern < -10).
Proof.
  intros Hc Hrun q d mt He Hi. subst q d mt.
  destruct (generate_fresh_Ok r s t s' Hc Hrun)
    as (kt & s1 & marks & Hbuild & _ & Hheap & _).
  pose proof (generate_fresh_shelf r s t s' kt s1 Hc Hrun Hbuild) as Hshelf.
  destruct (build_kerntable_records _ s kt s1 e i Hbuild He Hi)
    as (kern & Hkern & Hsolver & Hentry).
  exists kt, marks, kern. split; [done|]. split.
  { pose proof (determine_kern_cached_run i e (distance_at_closest s)
                  (quantize r rise_quantization) (maxtuck s) s') as Hspec.
    simpl in Hspec.
    by rewrite (lookup_weaken _ _ _ _ Hkern Hshelf) in Hspec. }
  split; [done|]. split; [done|]. rewrite Hentry.
  destruct (kern <? -10) eqn:Hlt.
  - apply Z.ltb_lt in Hlt. split; [done|by eexists].
  - apply Z.ltb_ge in Hlt. split; [by intros [? ?]|lia].
Qed.

End kern_table.

(** ** The generic router *)

Section at_height.
Context `{Externals}.

Lemma foldl_append_bind {A B} (f : A → list B) (xs : list A) (acc : list B) :
  foldl (λ acc x, acc ++ f x) acc xs = acc ++ (xs ≫= f).
Proof.
  revert acc. induction xs as [|x xs IH]; intros acc; simpl.
  - by rewrite app_nil_r.
  - by rewrite IH, app_assoc.
Qed.

Lemma foldl_ext_in {A B} (f g : B → A → B) (xs : list A) (acc : B) :
  (∀ acc x, f acc x = g acc x) → foldl f acc xs = foldl g acc xs.
Proof.
  intros Hfg. revert acc. induction xs as [|x xs IH]; intros acc; simpl;
    [done|]. by rewrite Hfg, IH.
Qed.

Lemma at_height_rule_append low high t rights ini rules pp :
  at_height_rule low high t rights ini rules pp
  = rules ++ (if in_band low high (tail_rise pp)
              then [at_height_chain t rights ini (reverse (fst <$> pp))]
              else []).
Proof.
  unfold at_height_rule, in_band, tail_rise, at_height_chain.
  destruct (_ && _); simpl; [done|by rewrite app_nil_r].
Qed.

Lemma at_height_loops low high t rights ini binned_finas binned_medis :
  foldl (λ rules i,
           foldl (at_height_rule low high t rights ini) rules
                 (Py.product ([binned_finas]
                              ++ Py.repeat_list [binned_medis] i)))
        [] (Py.range_down maximum_word_length)
  = (i ← Py.range_down maximum_word_length;
     pp ← all_options binned_finas binned_medis i;
     if in_band low high (tail_rise pp)
     then [at_height_chain t rights ini (reverse (fst <$> pp))] else []).
Proof.
  generalize (Py.range_down maximum_word_length). intros range.
  rewrite <-(app_nil_l (range ≫= _)), <-foldl_append_bind.
  apply foldl_ext_in. intros acc i. unfold all_options.
  rewrite <-foldl_append_bind.
  apply foldl_ext_in. intros acc' pp. apply at_height_rule_append.
Qed.

(** C8, as the code has it.  [AtHeight] walks the same products as the main
    compiler, lengths 5 down to 0, a final bin followed by [i] medial bins,
    and quantizes the aggregate rise in the same way; it does not discard
    negative aggregates, does not clamp at 600 and never drops the final
    bin.  Its one routine holds, in the order of the walk, a rule for
    exactly those sequences whose quantized, unclamped rise lies in the
    closed interval; the rule has the whole sequence, reversed, as its
    context and the routine found under the given name as its lookup.  The
    verb raises when the name, a class or a clustering is missing. *)
Theorem at_height_rules low high target routines :
  AtHeight_action low high target = Some routines →
  ∃ t ini medis iso finas binned_medis binned_finas,
    routineNamed target = Some t
    ∧ namedClasses !! "inits" = Some ini
    ∧ namedClasses !! "medis" = Some medis
    ∧ namedClasses !! "isols" = Some iso
    ∧ namedClasses !! "finas" = Some finas
    ∧ bin_glyphs_by_metric medis accuracy1 = Some binned_medis
    ∧ bin_glyphs_by_metric finas accuracy1 = Some binned_finas
    ∧ rules <$> routines
      = [ i ← Py.range_down maximum_word_length;
          pp ← all_options binned_finas binned_medis i;
          if in_band low high (tail_rise pp)
          then [Chaining [iso ++ finas; ini] (reverse (fst <$> pp))
                  [Some [t]; None]]
          else [] ].
Proof.
  unfold AtHeight_action. intros Hrun.
  destruct (routineNamed target) as [t|]; [|done].
  destruct (namedClasses !! "inits") as [ini|]; [|done].
  destruct (namedClasses !! "medis") as [medis|]; [|done].
  destruct (namedClasses !! "isols") as [iso|]; [|done].
  destruct (namedClasses !! "finas") as [finas|]; [|done].
  cbn [mbind option_bind] in Hrun.
  destruct (bin_glyphs_by_metric medis accuracy1) as [bm|] eqn:Hbm; [|done].
  destruct (bin_glyphs_by_metric finas accuracy1) as [bf|] eqn:Hbf; [|done].
  cbn [mbind option_bind] in Hrun.
  exists t, ini, medis, iso, finas, bm, bf. do 7 (split; [done|]).
  pose proof (at_height_loops low high t (iso ++ finas) ini bf bm) as Hloops.
  unfold at_height_chain in Hloops. rewrite <-Hloops.
  by injection Hrun as <-.
Qed.

End at_height.

(** C9 as stated fails: with a solver that raises, the run ends in an
    exception with the shelf opened once and never closed. *)
Lemma shelf_left_open_on_failure :
  let run := NastaliqKerning_action (H := Sample.env_failing) 50 40
               (Sample.fresh (H := Sample.env_failing) "") in
  succeeded run = false
  ∧ shelf_opens (final_state run) = 1%nat
  ∧ shelf_closes (final_state run) = 0%nat.
Proof. by vm_compute. Qed.

Lemma tall_sequence_clamped_witness :
  Py.sum (snd <$> Sample.tall_word) = 850
  ∧ ∃ rules' s' t,
      sequence_rules (H := Sample.env) 5 [] Sample.tall_word Sample.ready
      = Ok rules' s'
      ∧ generate_kern_table_for_rise (H := Sample.env) 600 Sample.ready
        = Ok t s'
      ∧ head rules'
        = Some (Chaining [isols_finas (Sample.ready (H := Sample.env))]
                  (["BEi1"; "JIMi1"] :: replicate 5 ["BEm1"]) [Some [t]]).
Proof.
  split; [reflexivity|].
  destruct (succeeded_Ok (H := Sample.env)
              (sequence_rules (H := Sample.env) 5 [] Sample.tall_word
                 Sample.ready))
    as (rules' & Hrun); [vm_compute; reflexivity|].
  destruct (tall_sequence_clamped (H := Sample.env) 5 []
              (["AINf1"; "BEf1"; "NUNf1"], 100) (replicate 5 (["BEm1"], 150))
              Sample.ready rules' _ Hrun)
    as (t & g & new & Hgen & Hlast & Hrules & Hhead & _).
  { vm_compute. discriminate. }
  eexists rules', _, t. split; [exact Hrun|]. split; [exact Hgen|].
  injection Hlast as <-. rewrite Hrules. exact Hhead.
Defined.

(** C7 as stated fails: a word of five medials, 400 units high, whose final
    group holds the blocker [AINf1] gets three rules, not two. *)
Lemma three_rules_for_a_blocked_tall_word :
  last (kept_context 5 Sample.low_word) = Some ["AINf1"; "BEf1"; "NUNf1"]
  ∧ blocked ["AINf1"; "BEf1"; "NUNf1"] = true
  ∧ length (kept_context 5 Sample.low_word) = 6%nat
  ∧ length <$> returned (sequence_rules (H := Sample.env_low) 5 []
                           Sample.low_word Sample.ready)
    = Some 3%nat.
Proof. by vm_compute. Qed.

Lemma blocker_split_witness :
  ∃ rules' s' t,
    sequence_rules (H := Sample.env) 2 [] (take 3 Sample.tall_word)
      Sample.ready
    = Ok rules' s'
    ∧ rules'
      = [ Chaining [isols_finas (Sample.ready (H := Sample.env))]
            [["BEi1"; "JIMi1"]; ["BEm1"]; ["BEm1"];
             Py.set_difference ["AINf1"; "BEf1"; "NUNf1"] blockers]
            [Some [t]];
          Chaining [isols_finas (Sample.ready (H := Sample.env))]
            [["BEi1"; "JIMi1"]; ["BEm1"]; ["BEm1"]; blockers] [Some [t]] ].
Proof.
  destruct (succeeded_Ok (H := Sample.env)
              (sequence_rules (H := Sample.env) 2 []
                 (take 3 Sample.tall_word) Sample.ready))
    as (rules' & Hrun); [vm_compute; reflexivity|].
  destruct (blocker_split (H := Sample.env) 2 [] (take 3 Sample.tall_word)
              Sample.ready rules' _ ["AINf1"; "BEf1"; "NUNf1"] Hrun)
    as (t & _ & Hrules);
    [vm_compute; discriminate|reflexivity|vm_compute; reflexivity
    |vm_compute; reflexivity|].
  eexists rules', _, t. split; [exact Hrun|].
  vm_compute in Hrules. vm_compute. exact Hrules.
Defined.

(** C2 as stated fails at 399: the rise is below 400, yet the result is the
    kern table [kern_at_400] itself, not a two-branch dispatcher. *)
Lemma direct_table_at_399 :
  let run := generate_kern_table_for_rise (H := Sample.env) 399
               Sample.ready in
  399 < 400
  ∧ (t ← returned run; o ← heap (final_state run) !! t;
     Some (name o, two_branches o))
    = Some ("kern_at_400", false).
Proof. by vm_compute. Qed.

Lemma table_or_dispatcher_witness :
  ∃ t s' o,
    generate_kern_table_for_rise (H := Sample.env) 300 Sample.ready = Ok t s'
    ∧ heap s' !! t = Some o
    ∧ is_dispatcher s' 300 o.
Proof.
  destruct (succeeded_Ok (H := Sample.env)
              (generate_kern_table_for_rise (H := Sample.env) 300
                 Sample.ready))
    as (t & Hrun); [vm_compute; reflexivity|].
  destruct (table_or_dispatcher (H := Sample.env) 300 Sample.ready t _
              (cache_ok_empty (H := Sample.env) Sample.ready eq_refl) Hrun)
    as (_ & _ & o & Ho & Hshape).
  eexists t, _, o. split; [exact Hrun|]. split; [exact Ho|]. exact Hshape.
Defined.

(** A direct call with a rise that is not a multiple of 100, which no run
    of [NastaliqKerning.action] makes: the memo is looked up under the rise
    as it is passed and filled under the quantized rise, so two calls with
    the argument 120 build two tables for rise 100. *)
Lemma table_rebuilt_for_unquantized_rise :
  let first := generate_kern_table_for_rise (H := Sample.env) 120
                 Sample.ready in
  let second := generate_kern_table_for_rise (H := Sample.env) 120
                  (final_state first) in
  quantize 120 rise_quantization = 100
  ∧ returned first = Some 2%nat
  ∧ returned second = Some 4%nat
  ∧ name <$> heap (final_state second)
    = ["kern_at_100"; "ink_to_ink_100"; "dispatch_100"; "kern_at_100";
       "dispatch_100"].
Proof. by vm_compute. Qed.

(** C6 as stated fails: for the right glyph [AINf1] and the left glyph
    [BEi1] (right side bearing 30) at rise 100 and base distance 50 the rule
    carries 25 - 30 = -5, where the formula of the claim, with the bearings
    of the other sides, gives 25. *)
Lemma ink_distance_uses_facing_bearings :
  let run := ink_to_ink_at (H := Sample.env) 100 Sample.ready in
  (t ← returned run; o ← heap (final_state run) !! t; rules o !! 0%nat)
  = Some (ink_rule "AINf1" "BEi1" (-5))
  ∧ (q ← spec_ink_distance (H := Sample.env) 50 100 "AINf1" "BEi1";
     Some (Qeq_bool q (inject_Z 25)))
    = Some true.
Proof. by vm_compute. Qed.

Lemma ink_to_ink_table_witness :
  ∃ t s' o,
    ink_to_ink_at (H := Sample.env) 100 Sample.ready = Ok t s'
    ∧ heap s' !! t = Some o
    ∧ ink_rule "AINf1" "BEi1" (-5) ∈ rules o.
Proof.
  destruct (succeeded_Ok (H := Sample.env)
              (ink_to_ink_at (H := Sample.env) 100 Sample.ready))
    as (t & Hrun); [vm_compute; reflexivity|].
  destruct (ink_to_ink_table (H := Sample.env) 100 Sample.ready t _
              eq_refl Hrun)
    as (_ & o & Ho & _ & Hrules).
  eexists t, _, o. split; [exact Hrun|]. split; [exact Ho|].
  destruct (Hrules "AINf1" "BEi1") as (rsb & lsb & Hrsb & Hlsb & Hiff).
  { (simpl; repeat constructor). }
  { (simpl; repeat constructor). }
  apply Hiff. vm_compute in Hrsb, Hlsb.
  injection Hrsb as <-. injection Hlsb as <-.
  split; [vm_compute; reflexivity|discriminate].
Defined.

(** C8 as stated fails.  For the band 700 to 900 the router emits two rules,
    for the words of raw rise 850 and 700, which the enumeration of the main
    compiler files under 600; for the band -300 to -100 and medials that
    fall by 150 it emits a rule for the word of rise -200, which the main
    compiler discards.  The rules the claim describes are none in both
    cases. *)
Lemma at_height_neither_clamps_nor_discards :
  option_map (map (λ o, length (rules o)))
    (AtHeight_action (H := Sample.env) 700 900 "DotAvoidance")
  = Some [2%nat]
  ∧ spec_AtHeight_rules (H := Sample.env) 700 900 "DotAvoidance" = Some []
  ∧ option_map (map (λ o, length (rules o)))
      (AtHeight_action (H := Sample.env_with (-150) false) (-300) (-100)
         "DotAvoidance")
    = Some [1%nat]
  ∧ spec_AtHeight_rules (H := Sample.env_with (-150) false) (-300) (-100)
      "DotAvoidance"
    = Some [].
Proof. by vm_compute. Qed.

Lemma at_height_rules_witness :
  ∃ routines,
    AtHeight_action (H := Sample.env) 700 900 "DotAvoidance" = Some routines
    ∧ rules <$> routines
      = [ [ Chaining [["ALIFu1"; "AINf1"; "BEf1"; "NUNf1"]; ["BEi1"; "JIMi1"]]
              (replicate 5 ["BEm1"] ++ [["AINf1"; "BEf1"; "NUNf1"]])
              [Some [0%nat]; None];
            Chaining [["ALIFu1"; "AINf1"; "BEf1"; "NUNf1"]; ["BEi1"; "JIMi1"]]
              (replicate 4 ["BEm1"] ++ [["AINf1"; "BEf1"; "NUNf1"]])
              [Some [0%nat]; None] ] ].
Proof.
  assert (∃ routines,
            AtHeight_action (H := Sample.env) 700 900 "DotAvoidance"
            = Some routines) as [routines Hrun]
    by (eexists; vm_compute; reflexivity).
  destruct (at_height_rules (H := Sample.env) 700 900 "DotAvoidance"
              routines Hrun)
    as (t & ini & medis & iso & finas & bm & bf
        & Ht & Hini & Hmedis & Hiso & Hfinas & Hbm & Hbf & Hrules).
  exists routines. split; [exact Hrun|]. rewrite Hrules.
  vm_compute in Ht, Hini, Hmedis, Hiso, Hfinas.
  injection Ht as <-. injection Hini as <-. injection Hmedis as <-.
  injection Hiso as <-. injection Hfinas as <-.
  vm_compute in Hbm, Hbf. injection Hbm as <-. injection Hbf as <-.
  vm_compute. reflexivity.
Defined.

Lemma recorded_iff_below_threshold_witness :
  ∃ t s' kerntable abovemarks,
    generate_kern_table_for_rise (H := Sample.env) 0 Sample.ready = Ok t s'
    ∧ heap s' !! 0%nat = Some (kern_routine 0 kerntable abovemarks)
    ∧ determine_kern (Externals := Sample.env) "BEi1" "ALIFu1" 50 0
        (percent (Externals := Sample.env) 40) = Some (-5)
    ∧ (Py.dget "ALIFu1" kerntable ≫= Py.dget "BEi1") = None
    ∧ determine_kern (Externals := Sample.env) "BEi1" "AINf1" 50 0
        (percent (Externals := Sample.env) 40) = Some (-15)
    ∧ (Py.dget "AINf1" kerntable ≫= Py.dget "BEi1") = Some (-20).
Proof.
  destruct (succeeded_Ok (H := Sample.env)
              (generate_kern_table_for_rise (H := Sample.env) 0 Sample.ready))
    as (t & Hrun); [vm_compute; reflexivity|].
  assert (Hslash : ∀ g,
            g ∈ isols_finas (Sample.ready (H := Sample.env))
                ++ left_candidates (H := Sample.env) Sample.ready 0 →
            Py.contains "/" g = false).
  { apply Forall_forall. repeat constructor. }
  destruct (recorded_iff_below_threshold (H := Sample.env) 0 Sample.ready
              t _ "ALIFu1" "BEi1" eq_refl Hrun)
    as (kerntable & abovemarks & kern & Hheap & _ & Hsolver & Hentry & _);
    [simpl; repeat constructor..|].
  specialize (Hsolver eq_refl Hslash). vm_compute in Hsolver.
  injection Hsolver as <-.
  destruct (recorded_iff_below_threshold (H := Sample.env) 0 Sample.ready
              t _ "AINf1" "BEi1" eq_refl Hrun)
    as (kerntable' & abovemarks' & kern & Hheap' & _ & Hsolver & Hentry' & _);
    [simpl; repeat constructor..|].
  specialize (Hsolver eq_refl Hslash). vm_compute in Hsolver.
  injection Hsolver as <-.
  rewrite Hheap in Hheap'. injection Hheap' as _ <- <-.
  eexists t, _, kerntable, abovemarks.
  split; [exact Hrun|]. split; [exact Hheap|].
  split; [reflexivity|]. split; [exact Hentry|].
  split; [reflexivity|]. exact Hentry'.
Defined.

(** * Further properties *)

(** ** The sequences of bins that are walked *)

Lemma elem_of_product {A} (ls : list (list A)) (xs : list A) :
  xs ∈ Py.product ls ↔ Forall2 (λ x l, x ∈ l) xs ls.
Proof.
  revert xs. induction ls as [|l ls IH]; intros xs; simpl.
  - rewrite list_elem_of_singleton. split; [by intros ->|by inversion 1].
  - rewrite list_elem_of_bind. split.
    + intros (x & (ys & -> & Hys)%list_elem_of_fmap & Hx).
      constructor; [done|by apply IH].
    + inversion 1 as [|x ? ys ? Hx Hys]; subst. exists x. split; [|done].
      apply list_elem_of_fmap. exists ys. split; [done|by apply IH].
Qed.

Lemma length_product {A} (ls : list (list A)) :
  length (Py.product ls) = foldr (λ l n, length l * n)%nat 1%nat ls.
Proof.
  induction ls as [|l ls IH]; simpl; [done|]. rewrite <-IH.
  generalize (Py.product ls). intros p. clear IH.
  induction l as [|x l IHl]; simpl; [done|].
  rewrite length_app, length_fmap. unfold mbind in IHl. by rewrite IHl.
Qed.

Lemma NoDup_product {A} (ls : list (list A)) :
  Forall NoDup ls → NoDup (Py.product ls).
Proof.
  induction 1 as [|l ls Hl Hls IH]; simpl; [apply NoDup_singleton|].
  induction Hl as [|x l Hx Hl IHl]; simpl; [constructor|].
  apply NoDup_app. split; [|split; [|done]].
  - apply NoDup_fmap_2; [|done]. by intros ?? [= ->].
  - intros ys (zs & -> & Hzs)%list_elem_of_fmap
      (x' & (zs' & [= <- <-] & _)%list_elem_of_fmap & Hx')%list_elem_of_bind.
    done.
Qed.

Lemma repeat_list_singleton {A} (x : A) n :
  Py.repeat_list [x] n = replicate n x.
Proof.
  unfold Py.repeat_list. induction n as [|n IH]; simpl; [done|].
  by rewrite IH.
Qed.

Lemma elem_of_all_options (binned_finas binned_medis : list Bin) i pp :
  pp ∈ all_options binned_finas binned_medis i
  ↔ ∃ final medials,
      pp = final :: medials ∧ final ∈ binned_finas
      ∧ length medials = i ∧ Forall (λ m, m ∈ binned_medis) medials.
Proof.
  unfold all_options. rewrite elem_of_product, repeat_list_singleton. simpl.
  split.
  - inversion 1 as [|fb ? mbs ? Hfb Hmbs]; subst. exists fb, mbs.
    split; [done|]. split; [done|].
    apply Forall2_length in Hmbs as Hlen. rewrite length_replicate in Hlen.
    split; [done|]. clear Hlen Hfb H.
    remember (replicate i binned_medis) as ls eqn:Hls.
    revert i Hls. induction Hmbs as [|m l mbs ls Hm Hmbs IH]; intros i Hls;
      [done|].
    destruct i as [|i]; simplify_eq/=. constructor; [done|by eapply IH].
  - intros (fb & mbs & -> & Hfb & <- & Hmbs). constructor; [done|].
    induction Hmbs; simpl; by constructor.
Qed.

(** X4.  The sequences walked for the length [i] are exactly the lists made
    of one final bin followed by [i] medial bins. *)
Theorem all_options_spec (binned_finas binned_medis : list Bin) i pp :
  pp ∈ all_options binned_finas binned_medis i
  ↔ ∃ final medials,
      pp = final :: medials ∧ final ∈ binned_finas
      ∧ length medials = i ∧ Forall (λ m, m ∈ binned_medis) medials.
Proof. apply elem_of_all_options. Qed.

(** X5.  For the length [i] there are as many sequences as there are final
    bins, times the number of medial bins to the power [i]. *)
Theorem all_options_count (binned_finas binned_medis : list Bin) i :
  length (all_options binned_finas binned_medis i)
  = (length binned_finas * length binned_medis ^ i)%nat.
Proof.
  unfold all_options. rewrite repeat_list_singleton, length_product.
  simpl. f_equal. induction i as [|i IH]; simpl; [done|]. by rewrite IH.
Qed.

(** X6.  When no final bin and no medial bin is listed twice, no sequence
    is walked twice. *)
Theorem all_options_NoDup (binned_finas binned_medis : list Bin) i :
  NoDup binned_finas → NoDup binned_medis →
  NoDup (all_options binned_finas binned_medis i).
Proof.
  intros Hf Hm. unfold all_options. rewrite repeat_list_singleton.
  apply NoDup_product. constructor; [done|]. by apply Forall_replicate.
Qed.

(** ** Dictionaries without a key held twice *)

Lemma dset_keys `{EqDecision K} {V} (k : K) (v : V) d :
  (Py.dset k v d).*1 = if decide (k ∈ d.*1) then d.*1 else d.*1 ++ [k].
Proof.
  induction d as [|[k' v'] d IH]; csimpl; [done|].
  destruct (decide (k = k')) as [->|Hne]; csimpl.
  - rewrite decide_True by left. done.
  - rewrite IH. destruct (decide (k ∈ d.*1)) as [Hin|Hout].
    + rewrite decide_True by (by right). done.
    + rewrite decide_False; [done|]. by intros [?|?]%elem_of_cons.
Qed.

Lemma NoDup_dset `{EqDecision K} {V} (k : K) (v : V) d :
  NoDup d.*1 → NoDup (Py.dset k v d).*1.
Proof.
  intros Hd. rewrite dset_keys. case_decide; [done|].
  apply NoDup_app. split; [done|]. split; [|apply NoDup_singleton].
  by intros k' Hk' ->%list_elem_of_singleton.
Qed.

Lemma elem_of_dset `{EqDecision K} {V} (k k' : K) (v v' : V) d :
  (k', v') ∈ Py.dset k v d → (k' = k ∧ v' = v) ∨ (k', v') ∈ d.
Proof.
  induction d as [|[k0 v0] d IH]; simpl.
  - intros [= -> ->]%list_elem_of_singleton. by left.
  - destruct (decide (k = k0)) as [->|Hne].
    + intros [[= -> ->]|Hin]%elem_of_cons; [by left|]. right. by right.
    + intros [[= -> ->]|Hin]%elem_of_cons; [right; by left|].
      destruct (IH Hin) as [?|?]; [by left|]. right. by right.
Qed.

Lemma dget_Some `{EqDecision K} {V} (k : K) (v : V) d :
  NoDup d.*1 → Py.dget k d = Some v ↔ (k, v) ∈ d.
Proof.
  induction d as [|[k0 v0] d IH]; simpl.
  - intros _. split; [done|by intros ?%elem_of_nil].
  - intros [Hk0 Hd]%NoDup_cons. destruct (decide (k = k0)) as [->|Hne].
    + split; [intros [= ->]; by left|].
      intros [[= ->]|Hin]%elem_of_cons; [done|].
      destruct Hk0. apply list_elem_of_fmap. by exists (k0, v).
    + rewrite IH by done. split; [by right|].
      by intros [[= -> ->]|Hin]%elem_of_cons.
Qed.

Lemma table_wf_dset (kt : KernTable) e row :
  table_wf kt → NoDup row.*1 → table_wf (Py.dset e row kt).
Proof.
  intros [Hkeys Hrows] Hrow. split; [by apply NoDup_dset|].
  intros e' row' [[-> ->]|Hin]%elem_of_dset; [done|by eapply Hrows].
Qed.

Lemma elem_of_kern_rules (kt : KernTable) e i v :
  table_wf kt →
  Positioning [[e]; [i]] [ {| xAdvance := None |}; {| xAdvance := Some v |} ]
  ∈ kern_rules kt
  ↔ Py.dget e kt ≫= Py.dget i = Some v.
Proof.
  intros [Hkeys Hrows]. unfold kern_rules. rewrite list_elem_of_bind. split.
  - intros ([e' row] & Hin & Hrow). apply list_elem_of_bind in Hin
      as ([i' v'] & Hin & Hentry).
    apply list_elem_of_singleton in Hin. injection Hin as -> -> ->.
    apply (dget_Some _ _ _ Hkeys) in Hrow as Hget. rewrite Hget. simpl.
    apply dget_Some; [by eapply Hrows|done].
  - intros Hget. destruct (Py.dget e kt) as [row|] eqn:Hrow; [|done].
    simpl in Hget. apply (dget_Some _ _ _ Hkeys) in Hrow.
    exists (e, row). split; [|done]. apply list_elem_of_bind.
    exists (i, v). split; [by apply list_elem_of_singleton|].
    apply dget_Some; [by eapply Hrows|done].
Qed.

Lemma kern_rules_shape (kt : KernTable) rule :
  rule ∈ kern_rules kt →
  ∃ e i v, rule = Positioning [[e]; [i]]
                    [ {| xAdvance := None |}; {| xAdvance := Some v |} ].
Proof.
  unfold kern_rules. intros ([e row] & Hin & _)%list_elem_of_bind.
  apply list_elem_of_bind in Hin as ([i v] & ->%list_elem_of_singleton & _).
  by eexists _, _, _.
Qed.

(** ** The loops of the kern table, once more *)

Section kern_loops_on.
Context `{Externals}.
Context (d r : Z) (mt : Float).

Lemma kern_pair_hit e kt i s :
  is_Some (shelve s !! cache_key i e d r mt) →
  final_state (kern_pair d r mt e kt i s) = s.
Proof.
  intros [kern Hk]. unfold kern_pair.
  pose proof (determine_kern_cached_run i e d r mt s) as Hspec.
  simpl in Hspec. rewrite Hk in Hspec.
  unfold mbind at 1, M_bind at 1. rewrite Hspec.
  destruct (kern <? -10); [|done].
  unfold mbind, M_bind. by destruct (Py.dget e kt).
Qed.

Lemma kern_row_loop_warm e lefts : ∀ kt s,
  (∀ i, i ∈ lefts → is_Some (shelve s !! cache_key i e d r mt)) →
  final_state (for_each lefts kt (kern_pair d r mt e) s) = s.
Proof.
  induction lefts as [|i lefts IH]; intros kt s Hkeys; simpl; [done|].
  pose proof (kern_pair_hit e kt i s) as Hhit.
  unfold mbind, M_bind.
  destruct (kern_pair d r mt e kt i s) as [kt1 s1|s1]; simpl in Hhit;
    rewrite Hhit by (apply Hkeys; by left); [|done].
  apply IH. intros j Hj. apply Hkeys. by right.
Qed.

Lemma kern_table_loop_warm ends rights : ∀ kt s,
  (∀ e i, e ∈ rights → i ∈ ends →
          is_Some (shelve s !! cache_key i e d r mt)) →
  final_state (for_each rights kt (kern_row d r mt ends) s) = s.
Proof.
  induction rights as [|e rights IH]; intros kt s Hkeys; simpl; [done|].
  assert (final_state (kern_row d r mt ends kt e s) = s) as Hrow.
  { unfold kern_row. apply kern_row_loop_warm.
    intros i Hi. apply (proj1 (elem_of_sorted _ _)) in Hi.
    apply Hkeys; [by left|done]. }
  unfold mbind, M_bind.
  destruct (kern_row d r mt ends kt e s) as [kt1 s1|s1]; simpl in Hrow;
    subst s1; [|done].
  apply IH. intros e' i He' Hi. apply Hkeys; [by right|done].
Qed.

Lemma kern_pair_Err e kt i s s' :
  is_Some (Py.dget e kt) →
  kern_pair d r mt e kt i s = Err s' →
  determine_kern i e d r mt = None.
Proof.
  intros [row Hrow]. unfold kern_pair.
  pose proof (determine_kern_cached_run i e d r mt s) as Hspec.
  simpl in Hspec. unfold mbind at 1, M_bind at 1.
  destruct (shelve s !! cache_key i e d r mt) as [kern|].
  - rewrite Hspec. destruct (kern <? -10); [|done].
    unfold mbind, M_bind. by rewrite Hrow.
  - destruct (determine_kern i e d r mt) as [kern|]; rewrite Hspec; [|done].
    destruct (kern <? -10); [|done].
    unfold mbind, M_bind. by rewrite Hrow.
Qed.

Lemma kern_row_loop_Err e lefts : ∀ kt s s',
  is_Some (Py.dget e kt) →
  for_each lefts kt (kern_pair d r mt e) s = Err s' →
  ∃ i, i ∈ lefts ∧ determine_kern i e d r mt = None.
Proof.
  induction lefts as [|i lefts IH]; intros kt s s' Hrow; simpl; [done|].
  unfold mbind, M_bind.
  destruct (kern_pair d r mt e kt i s) as [kt1 s1|s1] eqn:Hpair.
  - intros Hrun. destruct (IH kt1 s1 s') as (j & Hj & Hnone); [|done|].
    + apply kern_pair_Ok in Hpair as (kern & _ & _ & Hkt1).
      destruct (kern <? -10); [|by subst].
      destruct Hkt1 as (row & _ & ->). rewrite dget_dset_eq. by eexists.
    + exists j. split; [by right|done].
  - intros _. exists i. split; [by left|]. by eapply kern_pair_Err.
Qed.

Lemma kern_table_loop_Err ends rights : ∀ kt s s',
  for_each rights kt (kern_row d r mt ends) s = Err s' →
  ∃ e i, e ∈ rights ∧ i ∈ ends ∧ determine_kern i e d r mt = None.
Proof.
  induction rights as [|e rights IH]; intros kt s s'; simpl; [done|].
  unfold mbind, M_bind.
  destruct (kern_row d r mt ends kt e s) as [kt1 s1|s1] eqn:Hrow.
  - intros (e' & i & He' & Hi & Hnone)%IH. exists e', i.
    split; [by right|done].
  - intros _. unfold kern_row in Hrow.
    apply kern_row_loop_Err in Hrow as (i & Hi & Hnone).
    + apply (proj1 (elem_of_sorted _ _)) in Hi.
      exists e, i. split; [by left|done].
    + rewrite dget_dset_eq. by eexists.
Qed.

Lemma kern_pair_wf e kt i s kt' s' :
  kern_pair d r mt e kt i s = Ok kt' s' → table_wf kt → table_wf kt'.
Proof.
  intros (kern & _ & _ & Hkt)%kern_pair_Ok Hwf.
  destruct (kern <? -10); [|by subst].
  destruct Hkt as (row & Hrow & ->). apply table_wf_dset; [done|].
  apply NoDup_dset. destruct Hwf as [Hkeys Hrows].
  apply (dget_Some _ _ _ Hkeys) in Hrow. by eapply Hrows.
Qed.

Lemma kern_row_wf e lefts : ∀ kt s kt' s',
  for_each lefts kt (kern_pair d r mt e) s = Ok kt' s' →
  table_wf kt → table_wf kt'.
Proof.
  induction lefts as [|i lefts IH]; intros kt s kt' s'; simpl.
  - by intros [= <- <-].
  - intros Hrun Hwf. apply bind_Ok in Hrun as (kt1 & s1 & Hpair & Hrun).
    eapply IH; [done|]. by eapply kern_pair_wf.
Qed.

Lemma kern_table_wf ends rights : ∀ kt s kt' s',
  for_each rights kt (kern_row d r mt ends) s = Ok kt' s' →
  table_wf kt → table_wf kt'.
Proof.
  induction rights as [|e rights IH]; intros kt s kt' s'; simpl.
  - by intros [= <- <-].
  - intros Hrun Hwf. apply bind_Ok in Hrun as (kt1 & s1 & Hrow & Hrun).
    eapply IH; [done|]. unfold kern_row in Hrow.
    eapply kern_row_wf; [done|]. apply table_wf_dset; [done|constructor].
Qed.

End kern_loops_on.

(** ** Building a table: the solver, the failures, the rules *)

Section tables.
Context `{Externals}.

(** X13.  Once [generate_kern_table_for_rise] has built the table of a
    rise, building it again needs no solver: from any state with the same
    parameters and glyph classes whose shelf holds what the shelf held
    after the first build (a later run of the compiler on the same shelf,
    say), the call makes no call to the solver and leaves the shelf as it
    is, whether it returns or raises. *)
Theorem rebuild_needs_no_solver r s t s' s2 :
  kern_at_rise s !! r = None →
  generate_kern_table_for_rise r s = Ok t s' →
  same_self s s2 → shelve s' ⊆ shelve s2 →
  solver_calls (final_state (generate_kern_table_for_rise r s2))
  = solver_calls s2
  ∧ shelve (final_state (generate_kern_table_for_rise r s2)) = shelve s2.
Proof.
  intros Hc Hrun (Hd & Hmt & Hini & Hiso & Hfin) Hshelf.
  destruct (generate_fresh_Ok r s t s' Hc Hrun)
    as (kt & s1 & marks & Hbuild & _).
  pose proof (generate_fresh_shelf r s t s' kt s1 Hc Hrun Hbuild) as Hshelf1.
  set (q := quantize r rise_quantization) in *.
  unfold build_kerntable in Hbuild.
  apply kern_table_loop in Hbuild as (_ & Hdone & _).
  destruct (kern_at_rise s2 !! r) as [t2|] eqn:Hc2.
  { by rewrite (generate_cached r s2 t2 Hc2). }
  rewrite (generate_fresh_run r s2 Hc2). fold q.
  pose proof (kern_table_loop_warm (distance_at_closest s2) q (maxtuck s2)
                (left_candidates s2 q) (isols_finas s2) [] s2) as Hwarm.
  fold (build_kerntable q s2 s2) in Hwarm.
  assert (final_state (build_kerntable q s2 s2) = s2) as Hfinal.
  { apply Hwarm. unfold left_candidates. rewrite Hd, Hmt, Hini, Hiso, Hfin.
    intros e i He Hi. destruct (Hdone e He) as (Hkeys & _).
    destruct (Hkeys i Hi) as [kern Hk]. exists kern.
    eapply lookup_weaken; [done|]. by etrans. }
  destruct (build_kerntable q s2 s2) as [kt2 s3|s3]; simpl in Hfinal; subst s3;
    [|done].
  destruct (namedClasses !! "all_above_marks") as [marks2|]; [|done].
  cbv zeta. destruct (400 <=? q); [done|].
  set (s3 := push_reference _ _).
  pose proof (same_solver_ink q s3) as Hink.
  by destruct (ink_to_ink_at q s3) as [ink s4|s4].
Qed.

(** X16.  [generate_kern_table_for_rise] raises for three reasons only: the
    solver raises for a pair of a right glyph and a left candidate, the
    class [all_above_marks] is missing, or, below rise 400, a glyph lacks a
    bearing that the ink-to-ink table needs.  When it raises no table is
    cached for the rise, and the shelf keeps the answers it had and those
    obtained before the failure. *)
Theorem generate_raises_only_if r s s' :
  generate_kern_table_for_rise r s = Err s' →
  let q := quantize r rise_quantization in
  ((∃ e i, e ∈ isols_finas s ∧ i ∈ left_candidates s q
           ∧ determine_kern i e (distance_at_closest s) q (maxtuck s) = None)
   ∨ namedClasses !! "all_above_marks" = None
   ∨ (q < 400
      ∧ ¬ ∀ right left, right ∈ isols_finas s → left ∈ inits s ++ isols s →
            is_Some (glyph_rsb left) ∧ is_Some (glyph_lsb right)))
  ∧ kern_at_rise s' = kern_at_rise s
  ∧ shelve s ⊆ shelve s'.
Proof.
  intros Hrun q.
  assert (shelve s ⊆ shelve s') as Hshelf.
  { pose proof (shelf_kept_generate r s) as Hk. by rewrite Hrun in Hk. }
  destruct (kern_at_rise s !! r) as [t0|] eqn:Hc.
  { by rewrite (generate_cached r s t0 Hc) in Hrun. }
  rewrite (generate_fresh_run r s Hc) in Hrun. fold q in Hrun.
  pose proof (same_objects_build q s s) as Hobj.
  pose proof (same_self_build q s s) as Hself.
  destruct (build_kerntable q s s) as [kt s1|s1] eqn:Hbuild.
  2: { injection Hrun as <-. destruct Hobj as (_ & _ & Hkern & _).
       split; [|done]. left. unfold build_kerntable in Hbuild.
       by apply kern_table_loop_Err in Hbuild. }
  destruct Hobj as (_ & _ & Hkern & _).
  destruct (namedClasses !! "all_above_marks") as [marks|].
  2: { injection Hrun as <-. split; [|done]. right. by left. }
  cbv zeta in Hrun. destruct (400 <=? q) eqn:Hq; [done|].
  apply Z.leb_gt in Hq.
  set (s2 := push_reference _ _) in Hrun.
  destruct (ink_to_ink_at q s2) as [ink s3|s3] eqn:Hink; [done|].
  injection Hrun as <-. pose proof (ink_to_ink_at_Err q s2 s3 Hink) as ->.
  split; [|done]. right. right. split; [done|]. intros Hdef.
  pose proof (ink_to_ink_at_total q s2) as Htotal.
  rewrite Hink in Htotal. simpl in Htotal.
  enough (false = true) by done. apply Htotal.
  destruct Hself as (_ & _ & Hini & Hiso & Hfin). subst s2. simpl.
  rewrite Hini, Hiso, Hfin. exact Hdef.
Qed.

(** X14.  The routine [kern_at_q] that [generate_kern_table_for_rise]
    builds holds positioning rules only, each for a right glyph followed
    by a left glyph.  It holds the rule for the pair [e], [i] with the
    advance [v] exactly when [e] is a right glyph (finals and isolates),
    [i] is a left candidate, the adjustment that the kern cache holds for
    the pair is below -10, and [v] is that adjustment quantized to a step
    of 10. *)
Theorem kern_rule_iff r s t s' :
  kern_at_rise s !! r = None →
  generate_kern_table_for_rise r s = Ok t s' →
  let q := quantize r rise_quantization in
  ∃ o,
    heap s' !! length (heap s) = Some o
    ∧ name o = "kern_at_" +:+ pretty q
    ∧ (∀ rule, rule ∈ rules o →
         ∃ e i v, rule = Positioning [[e]; [i]]
                           [ {| xAdvance := None |}; {| xAdvance := Some v |} ])
    ∧ ∀ e i v,
        Positioning [[e]; [i]]
          [ {| xAdvance := None |}; {| xAdvance := Some v |} ] ∈ rules o
        ↔ e ∈ isols_finas s ∧ i ∈ left_candidates s q
          ∧ ∃ kern,
              shelve s' !! cache_key i e (distance_at_closest s) q (maxtuck s)
              = Some kern
              ∧ kern < -10 ∧ v = quantize kern kern_quantization.
Proof.
  intros Hc Hrun q.
  destruct (generate_fresh_Ok r s t s' Hc Hrun)
    as (kt & s1 & marks & Hbuild & _ & Hheap & _).
  pose proof (generate_fresh_shelf r s t s' kt s1 Hc Hrun Hbuild) as Hshelf.
  fold q in Hbuild, Hheap. exists (kern_routine q kt marks).
  split; [done|]. split; [done|]. simpl.
  split; [apply kern_rules_shape|].
  unfold build_kerntable in Hbuild.
  apply kern_table_wf in Hbuild as Hwf;
    [|split; [constructor|by intros ?? ?%elem_of_nil]].
  apply kern_table_loop in Hbuild as (_ & Hdone & Hother).
  intros e i v. rewrite elem_of_kern_rules by done.
  destruct (decide (e ∈ isols_finas s)) as [He|He].
  2: { rewrite (Hother e He). simpl. split; [done|by intros [? _]]. }
  destruct (Hdone e He) as (Hkeys & row & Hrow & Hrec).
  rewrite Hrow. simpl. rewrite Hrec.
  destruct (decide (i ∈ left_candidates s q)) as [Hi|Hi].
  2: { split; [done|by intros (_ & ? & _)]. }
  destruct (Hkeys i Hi) as [kern Hkern]. unfold recorded. rewrite Hkern. simpl.
  pose proof (lookup_weaken _ _ _ _ Hkern Hshelf) as Hkern'.
  destruct (Z.ltb_spec kern (-10)) as [Hlt|Hge].
  - split.
    + intros [= <-]. do 2 (split; [done|]). by exists kern.
    + intros (_ & _ & kern' & Hk' & _ & ->). congruence.
  - split; [done|]. intros (_ & _ & kern' & Hk' & Hlt & _).
    assert (kern' = kern) by congruence. lia.
Qed.

End tables.

(** ** A run that cannot start *)

Section action_errors.
Context `{Externals}.

Lemma bind_modify {B} (g : State → State) (f : () → M B) s :
  (modify g ≫= f) s = f () (g s).
Proof. done. Qed.

Lemma bind_or_raise {A B} (o : option A) (f : A → M B) s :
  (or_raise o ≫= f) s = match o with Some a => f a s | None => Err s end.
Proof. by destruct o. Qed.

(** X10.  When one of the glyph classes [inits], [medis], [bariye], [isols]
    and [finas] is missing, [NastaliqKerning.action] raises before any work
    is done: the solver is not called, the shelf has been opened and is
    left open with its entries as they were, and no routine is created. *)
Theorem action_needs_classes arg0 arg1 s c :
  c ∈ ["inits"; "medis"; "bariye"; "isols"; "finas"] →
  namedClasses !! c = None →
  ∃ s', NastaliqKerning_action arg0 arg1 s = Err s'
        ∧ solver_calls s' = solver_calls s
        ∧ shelve s' = shelve s
        ∧ heap s' = heap s
        ∧ shelf_opens s' = S (shelf_opens s)
        ∧ shelf_closes s' = shelf_closes s.
Proof.
  intros Hc Hnone. unfold NastaliqKerning_action, shelve_open.
  rewrite !bind_modify, bind_or_raise.
  destruct (namedClasses !! "inits") as [ini|] eqn:Hini; [|by eexists].
  rewrite bind_modify, bind_or_raise.
  destruct (namedClasses !! "medis") as [medis|] eqn:Hmedis; [|by eexists].
  rewrite bind_or_raise.
  destruct (namedClasses !! "bariye") as [bariye|] eqn:Hbariye; [|by eexists].
  rewrite bind_or_raise.
  destruct (namedClasses !! "isols") as [isols|] eqn:Hisols; [|by eexists].
  rewrite bind_modify, bind_or_raise.
  destruct (namedClasses !! "finas") as [finas|] eqn:Hfinas; [|by eexists].
  exfalso. repeat (apply elem_of_cons in Hc as [->|Hc]; [congruence|]).
  by apply elem_of_nil in Hc.
Qed.

End action_errors.

(** ** More on the generic router *)

Section at_height_bands.
Context `{Externals}.

Lemma AtHeight_action_run low high target :
  AtHeight_action low high target
  = (t ← routineNamed target;
     ini ← namedClasses !! "inits";
     medis ← namedClasses !! "medis";
     iso ← namedClasses !! "isols";
     finas ← namedClasses !! "finas";
     binned_medis ← bin_glyphs_by_metric medis accuracy1;
     binned_finas ← bin_glyphs_by_metric finas accuracy1;
     Some [ {| name := "At_" +:+ pretty low +:+ "_" +:+ pretty high
                       +:+ "_" +:+ target;
               flags := 12;
               rules :=
                 (i ← Py.range_down maximum_word_length;
                  pp ← all_options binned_finas binned_medis i;
                  if in_band low high (tail_rise pp)
                  then [at_height_chain t (iso ++ finas) ini
                          (reverse (fst <$> pp))]
                  else []);
               markFilteringSet := None; _table := None |} ]).
Proof.
  unfold AtHeight_action.
  destruct (routineNamed target) as [t|]; [|done].
  destruct (namedClasses !! "inits") as [ini|]; [|done].
  destruct (namedClasses !! "medis") as [medis|]; [|done].
  destruct (namedClasses !! "isols") as [iso|]; [|done].
  destruct (namedClasses !! "finas") as [finas|]; [|done].
  cbn [mbind option_bind].
  destruct (bin_glyphs_by_metric medis accuracy1) as [bm|]; [|done].
  destruct (bin_glyphs_by_metric finas accuracy1) as [bf|]; [|done].
  cbn [mbind option_bind].
  by rewrite (at_height_loops low high t (iso ++ finas) ini bf bm).
Qed.

Lemma AtHeight_action_Some low high target routines :
  AtHeight_action low high target = Some routines →
  ∃ t ini medis iso finas binned_medis binned_finas,
    routineNamed target = Some t
    ∧ namedClasses !! "inits" = Some ini
    ∧ namedClasses !! "medis" = Some medis
    ∧ namedClasses !! "isols" = Some iso
    ∧ namedClasses !! "finas" = Some finas
    ∧ bin_glyphs_by_metric medis accuracy1 = Some binned_medis
    ∧ bin_glyphs_by_metric finas accuracy1 = Some binned_finas
    ∧ routines
      = [ {| name := "At_" +:+ pretty low +:+ "_" +:+ pretty high
                     +:+ "_" +:+ target;
             flags := 12;
             rules :=
               (i ← Py.range_down maximum_word_length;
                pp ← all_options binned_finas binned_medis i;
                if in_band low high (tail_rise pp)
                then [at_height_chain t (iso ++ finas) ini
                        (reverse (fst <$> pp))]
                else []);
             markFilteringSet := None; _table := None |} ].
Proof.
  rewrite AtHeight_action_run.
  destruct (routineNamed target) as [t|]; [|done].
  destruct (namedClasses !! "inits") as [ini|]; [|done].
  destruct (namedClasses !! "medis") as [medis|]; [|done].
  destruct (namedClasses !! "isols") as [iso|]; [|done].
  destruct (namedClasses !! "finas") as [finas|]; [|done].
  cbn [mbind option_bind].
  destruct (bin_glyphs_by_metric medis accuracy1) as [bm|] eqn:Hbm; [|done].
  destruct (bin_glyphs_by_metric finas accuracy1) as [bf|] eqn:Hbf; [|done].
  cbn [mbind option_bind]. intros [= <-].
  by exists t, ini, medis, iso, finas, bm, bf.
Qed.

Lemma bind_nil_all {A B} (f : A → list B) (xs : list A) :
  (∀ x, f x = []) → xs ≫= f = [].
Proof.
  intros Hf. induction xs as [|x xs IH]; [done|].
  change ((x :: xs) ≫= f) with (f x ++ (xs ≫= f)). by rewrite Hf, IH.
Qed.

Lemma sublist_bind {A B} (f g : A → list B) (xs : list A) :
  (∀ x, f x `sublist_of` g x) → (xs ≫= f) `sublist_of` (xs ≫= g).
Proof.
  intros Hfg. induction xs as [|x xs IH]; [done|].
  change ((x :: xs) ≫= f) with (f x ++ (xs ≫= f)).
  change ((x :: xs) ≫= g) with (g x ++ (xs ≫= g)).
  by apply sublist_app.
Qed.

Lemma elem_of_range_down n i : i ∈ Py.range_down n ↔ (i ≤ n)%nat.
Proof.
  induction n as [|n IH]; simpl.
  - rewrite list_elem_of_singleton. lia.
  - rewrite elem_of_cons, IH. lia.
Qed.

(** X19.  With an empty band, the upper bound below the lower, [AtHeight]
    still returns its routine, named after the band and the target and
    with the flags [0x04 | 0x08], and the routine has no rules. *)
Theorem at_height_empty_band low high target routines :
  high < low →
  AtHeight_action low high target = Some routines →
  ∃ o, routines = [o] ∧ rules o = []
       ∧ name o = "At_" +:+ pretty low +:+ "_" +:+ pretty high
                  +:+ "_" +:+ target
       ∧ flags o = 12.
Proof.
  intros Hband Hrun.
  apply AtHeight_action_Some in Hrun
    as (t & ini & medis & iso & finas & bm & bf & _ & _ & _ & _ & _ & _ & _ & ->).
  eexists. split; [done|]. split; [|done]. cbn [rules].
  apply bind_nil_all. intros i. apply bind_nil_all. intros pp.
  unfold in_band.
  destruct (Z.leb_spec low (tail_rise pp)), (Z.leb_spec (tail_rise pp) high);
    simpl; try done. lia.
Qed.

(** X20.  The routine of [AtHeight] holds a rule exactly for each final bin
    and each list of at most five medial bins whose rises sum, after
    quantization to a multiple of 100, to a value within the closed band.
    The rule matches the right glyphs (isolates, then finals) followed by an
    initial, has the medial groups in reverse order followed by the final
    group as its context, and applies the target routine at the first
    position only. *)
Theorem at_height_rule_iff low high target routines rule :
  AtHeight_action low high target = Some routines →
  ∃ o t ini iso medis finas binned_medis binned_finas,
    routines = [o]
    ∧ routineNamed target = Some t
    ∧ namedClasses !! "inits" = Some ini
    ∧ namedClasses !! "isols" = Some iso
    ∧ namedClasses !! "medis" = Some medis
    ∧ namedClasses !! "finas" = Some finas
    ∧ bin_glyphs_by_metric medis accuracy1 = Some binned_medis
    ∧ bin_glyphs_by_metric finas accuracy1 = Some binned_finas
    ∧ (rule ∈ rules o
       ↔ ∃ final medials,
           final ∈ binned_finas
           ∧ (length medials ≤ 5)%nat
           ∧ Forall (λ m, m ∈ binned_medis) medials
           ∧ low ≤ quantize (Py.sum (snd <$> final :: medials)) 100 ≤ high
           ∧ rule = Chaining [iso ++ finas; ini]
                      (reverse (fst <$> medials) ++ [final.1])
                      [Some [t]; None]).
Proof.
  intros Hrun.
  apply AtHeight_action_Some in Hrun
    as (t & ini & medis & iso & finas & bm & bf & Ht & Hini & Hmedis & Hiso
        & Hfinas & Hbm & Hbf & ->).
  eexists _, t, ini, iso, medis, finas, bm, bf. do 8 (split; [done|]).
  cbn [rules]. rewrite list_elem_of_bind.
  setoid_rewrite list_elem_of_bind. setoid_rewrite elem_of_range_down.
  setoid_rewrite elem_of_all_options. unfold in_band, tail_rise, rise_quantization.
  split.
  - intros (i & (pp & Hrule & fb & mbs & -> & Hfb & Hlen & Hmbs) & Hi).
    destruct (Z.leb_spec low (quantize (Py.sum (snd <$> fb :: mbs)) 100));
      [|by apply elem_of_nil in Hrule].
    destruct (Z.leb_spec (quantize (Py.sum (snd <$> fb :: mbs)) 100) high);
      [|by apply elem_of_nil in Hrule].
    apply list_elem_of_singleton in Hrule as ->.
    exists fb, mbs. split; [done|]. split; [unfold maximum_word_length in Hi; lia|].
    split; [done|]. split; [done|].
    unfold at_height_chain. by rewrite fmap_cons, reverse_cons.
  - intros (fb & mbs & Hfb & Hlen & Hmbs & [Hlow Hhigh] & ->).
    exists (length mbs). split; [|done]. exists (fb :: mbs).
    split; [|by exists fb, mbs].
    rewrite (proj2 (Z.leb_le _ _) Hlow), (proj2 (Z.leb_le _ _) Hhigh).
    simpl. apply list_elem_of_singleton.
    unfold at_height_chain. by rewrite reverse_cons.
Qed.

(** X21.  Widening the band only adds rules: the rules of [AtHeight] for a
    band are, in the same order, among its rules for any band that
    contains it. *)
Theorem at_height_wider_band low high low' high' target routines :
  low' ≤ low → high ≤ high' →
  AtHeight_action low high target = Some routines →
  ∃ o o',
    routines = [o]
    ∧ AtHeight_action low' high' target = Some [o']
    ∧ rules o `sublist_of` rules o'.
Proof.
  intros Hlow Hhigh Hrun.
  apply AtHeight_action_Some in Hrun
    as (t & ini & medis & iso & finas & bm & bf & Ht & Hini & Hmedis & Hiso
        & Hfinas & Hbm & Hbf & ->).
  rewrite AtHeight_action_run, Ht, Hini, Hmedis, Hiso, Hfinas.
  cbn [mbind option_bind]. rewrite Hbm, Hbf. cbn [mbind option_bind].
  eexists _, _. split; [done|]. split; [done|]. cbn [rules].
  apply sublist_bind. intros i. apply sublist_bind. intros pp.
  unfold in_band.
  destruct (Z.leb_spec low (tail_rise pp)), (Z.leb_spec (tail_rise pp) high);
    simpl; try apply sublist_nil_l.
  rewrite (proj2 (Z.leb_le low' _)), (proj2 (Z.leb_le _ high')) by lia.
  done.
Qed.

End at_height_bands.

(** ** The further properties on the small font *)

Lemma failed_Err `{Externals} {A} (r : Res A) :
  succeeded r = false → r = Err (final_state r).
Proof. by destruct r. Qed.


Lemma quantize_monotone_witness : quantize 249 100 ≤ quantize 251 100.
Proof. apply (quantize_monotone 249 251 100); lia. Defined.


Lemma all_options_NoDup_witness :
  NoDup (all_options [(["AINf1"], 100); (["BEf1"], 40)]
                     [(["BEm1"], 150); (["JIMm1"], 60)] 2).
Proof.
  apply (all_options_NoDup [(["AINf1"], 100); (["BEf1"], 40)]
           [(["BEm1"], 150); (["JIMm1"], 60)] 2);
    apply (bool_decide_unpack _); vm_compute; exact I.
Defined.

Lemma sequence_rules_appends_witness :
  Py.sum (snd <$> Sample.sunk_word) = -200
  ∧ sequence_rules (H := Sample.env) 2 [] Sample.sunk_word Sample.ready
    = Ok [] Sample.ready.
Proof.
  split; [reflexivity|].
  destruct (succeeded_Ok (H := Sample.env)
              (sequence_rules (H := Sample.env) 2 [] Sample.sunk_word
                 Sample.ready))
    as (rules' & Hrun); [vm_compute; reflexivity|].
  destruct (sequence_rules_appends (H := Sample.env) 2 [] Sample.sunk_word
              Sample.ready rules' _ Hrun)
    as (new & Hrules & _ & Hnone & Hsame).
  assert (new = []) as Hnew by (apply Hnone; vm_compute; reflexivity).
  rewrite Hrun, Hrules, Hnew, (Hsame Hnew). reflexivity.
Defined.

Lemma tables_shared_within_run_witness :
  let pp1 := take 5 Sample.low_word in
  let pp2 := take 4 Sample.low_word in
  Py.sum (snd <$> pp1) = 340 ∧ Py.sum (snd <$> pp2) = 280
  ∧ ∃ routines s' t g1 g2,
      NastaliqKerning_action (H := Sample.env_low) 50 40
        (Sample.fresh (H := Sample.env_low) "")
      = Ok routines s'
      ∧ kern_at_rise s' !! 300 = Some t
      ∧ sequence_contribution 4 pp1 (kern_at_rise s') (isols_finas s')
          (inits s')
        = emitted 4 300 (kept_context 4 pp1) g1 (isols_finas s') (inits s') t
      ∧ sequence_contribution 3 pp2 (kern_at_rise s') (isols_finas s')
          (inits s')
        = emitted 3 300 (kept_context 3 pp2) g2 (isols_finas s') (inits s') t.
Proof.
  intros pp1 pp2. split; [reflexivity|]. split; [reflexivity|].
  destruct (succeeded_Ok (H := Sample.env_low)
              (NastaliqKerning_action (H := Sample.env_low) 50 40
                 (Sample.fresh (H := Sample.env_low) "")))
    as (routines & Hrun); [vm_compute; reflexivity|].
  destruct (proj2 (proj2 (tables_shared_within_run (H := Sample.env_low)))
              50 40 _ routines _ Hrun)
    as (medis & bariye & finas & bm & bf & baseline & Hmedis & Hbariye
        & Hfinas & Hbm & Hbf & _ & _ & Hshare).
  vm_compute in Hmedis, Hbariye, Hfinas.
  injection Hmedis as <-. injection Hbariye as <-. injection Hfinas as <-.
  vm_compute in Hbm, Hbf. injection Hbm as <-. injection Hbf as <-.
  destruct (Hshare 4%nat pp1 3%nat pp2) as (t & g1 & g2 & Ht & _ & H1 & H2 & _).
  { simpl. repeat constructor. }
  { simpl. repeat constructor. }
  { vm_compute. repeat constructor. }
  { vm_compute. repeat constructor. }
  { vm_compute. discriminate. }
  { vm_compute. discriminate. }
  { reflexivity. }
  eexists routines, _, t, g1, g2. split; [exact Hrun|].
  split; [exact Ht|]. split; [exact H1|exact H2].
Defined.

Lemma kern_tables_at_seven_rises_witness :
  let s' := final_state (NastaliqKerning_action (H := Sample.env) 50 40
                           (Sample.fresh (H := Sample.env) "")) in
  (∀ k, is_Some (kern_at_rise s' !! k) →
        k ∈ [0; 100; 200; 300; 400; 500; 600])
  ∧ is_Some (kern_at_rise s' !! 0)
  ∧ (size (kern_at_rise s') ≤ 7)%nat.
Proof.
  destruct (succeeded_Ok (H := Sample.env)
              (NastaliqKerning_action (H := Sample.env) 50 40
                 (Sample.fresh (H := Sample.env) "")))
    as (routines & Hrun); [vm_compute; reflexivity|].
  exact (kern_tables_at_seven_rises (H := Sample.env) 50 40 _ routines _ Hrun).
Defined.

Lemma action_reads_classes_witness :
  let s' := final_state (NastaliqKerning_action (H := Sample.env) 50 40
                           (Sample.fresh (H := Sample.env) "")) in
  distance_at_closest s' = 50
  ∧ inits s' = ["BEi1"; "JIMi1"]
  ∧ isols s' = ["ALIFu1"]
  ∧ NoDup (isols_finas s')
  ∧ "BARI_YEf1" ∈ isols_finas s'.
Proof.
  destruct (succeeded_Ok (H := Sample.env)
              (NastaliqKerning_action (H := Sample.env) 50 40
                 (Sample.fresh (H := Sample.env) "")))
    as (routines & Hrun); [vm_compute; reflexivity|].
  destruct (action_reads_classes (H := Sample.env) 50 40 _ routines _ Hrun)
    as (ini & bariye & all_isols & all_finas & Hini & Hbariye & Hisols
        & Hfinas & Hd & _ & Hini' & Hiso' & Hdup & Hmem).
  vm_compute in Hini, Hbariye, Hisols.
  injection Hini as <-. injection Hbariye as <-. injection Hisols as <-.
  split; [exact Hd|]. split; [exact Hini'|]. split; [exact Hiso'|].
  split; [exact Hdup|]. apply Hmem. right. right. repeat constructor.
Defined.

Lemma action_needs_classes_witness :
  ∃ s', NastaliqKerning_action (H := Sample.env_lacking "medis") 50 40
          (Sample.fresh (H := Sample.env_lacking "medis") "")
        = Err s'
        ∧ solver_calls s' = []
        ∧ shelf_opens s' = 1%nat ∧ shelf_closes s' = 0%nat.
Proof.
  destruct (action_needs_classes (H := Sample.env_lacking "medis") 50 40
              (Sample.fresh (H := Sample.env_lacking "medis") "") "medis")
    as (s' & Hrun & Hcalls & _ & _ & Hopens & Hcloses).
  { repeat constructor. }
  { reflexivity. }
  exists s'. split; [exact Hrun|]. split; [exact Hcalls|].
  split; [exact Hopens|exact Hcloses].
Defined.

Lemma action_keeps_shelf_entries_witness :
  let s := set_shelve {[ "BEi1/AINf1/50/0/40e-2" := -42 ]}
             (Sample.fresh (H := Sample.env) "") in
  shelve (final_state (NastaliqKerning_action (H := Sample.env) 50 40 s))
  !! "BEi1/AINf1/50/0/40e-2" = Some (-42).
Proof.
  intros s.
  apply (action_keeps_shelf_entries (H := Sample.env) 50 40 s
           "BEi1/AINf1/50/0/40e-2" (-42)).
  reflexivity.
Defined.

Lemma solver_called_once_per_key_witness :
  let s' := final_state (NastaliqKerning_action (H := Sample.env) 50 40
                           (Sample.fresh (H := Sample.env) "")) in
  NoDup (call_key <$> solver_calls s')
  ∧ ∀ c, c ∈ solver_calls s' →
         shelve (Sample.fresh (H := Sample.env) "") !! call_key c = None.
Proof.
  exact (solver_called_once_per_key (H := Sample.env) 50 40
           (Sample.fresh (H := Sample.env) "") eq_refl).
Defined.

Lemma rebuild_needs_no_solver_witness :
  let first := generate_kern_table_for_rise (H := Sample.env) 0
                 Sample.ready in
  let s2 := set_kern_at_rise ∅ (final_state first) in
  let second := generate_kern_table_for_rise (H := Sample.env) 0 s2 in
  succeeded first = true
  ∧ solver_calls (final_state second) = solver_calls s2
  ∧ shelve (final_state second) = shelve s2.
Proof.
  intros first s2 second. subst second s2.
  destruct (succeeded_Ok (H := Sample.env) first) as (t & Hrun);
    [vm_compute; reflexivity|].
  split; [vm_compute; reflexivity|].
  pose proof (same_self_generate (H := Sample.env) 0 Sample.ready) as Hself.
  fold first in Hself. rewrite Hrun in Hself.
  generalize dependent (final_state first). intros s' Hrun Hself.
  apply (rebuild_needs_no_solver (H := Sample.env) 0 Sample.ready t s'
           (set_kern_at_rise ∅ s') eq_refl Hrun); [exact Hself|reflexivity].
Defined.

Lemma kern_rule_iff_witness :
  ∃ t s' o,
    generate_kern_table_for_rise (H := Sample.env) 0 Sample.ready = Ok t s'
    ∧ heap s' !! 0%nat = Some o
    ∧ Positioning [["AINf1"]; ["BEi1"]]
        [ {| xAdvance := None |}; {| xAdvance := Some (-20) |} ] ∈ rules o
    ∧ ¬ Positioning [["ALIFu1"]; ["BEi1"]]
          [ {| xAdvance := None |}; {| xAdvance := Some (-10) |} ] ∈ rules o.
Proof.
  destruct (succeeded_Ok (H := Sample.env)
              (generate_kern_table_for_rise (H := Sample.env) 0 Sample.ready))
    as (t & Hrun); [vm_compute; reflexivity|].
  destruct (kern_rule_iff (H := Sample.env) 0 Sample.ready t _ eq_refl Hrun)
    as (o & Ho & _ & _ & Hiff).
  eexists t, _, o. split; [exact Hrun|]. split; [exact Ho|]. split.
  - apply Hiff. split; [repeat constructor|]. split; [repeat constructor|].
    exists (-15). split; [vm_compute; reflexivity|].
    split; [reflexivity|reflexivity].
  - intros (_ & _ & kern & Hkern & Hlt & _)%Hiff.
    vm_compute in Hkern. injection Hkern as <-. discriminate Hlt.
Defined.

Lemma table_found_under_quantized_rise_witness :
  ∃ t s',
    generate_kern_table_for_rise (H := Sample.env) 120 Sample.ready = Ok t s'
    ∧ generate_kern_table_for_rise (H := Sample.env) 100 s' = Ok t s'.
Proof.
  destruct (succeeded_Ok (H := Sample.env)
              (generate_kern_table_for_rise (H := Sample.env) 120
                 Sample.ready))
    as (t & Hrun); [vm_compute; reflexivity|].
  destruct (table_found_under_quantized_rise (H := Sample.env) 120
              Sample.ready t _ Hrun eq_refl) as [_ Hagain].
  eexists t, _. split; [exact Hrun|exact Hagain].
Defined.

Lemma generate_raises_only_if_witness :
  ∃ s',
    generate_kern_table_for_rise (H := Sample.env_failing) 0 Sample.ready
    = Err s'
    ∧ kern_at_rise s' = ∅
    ∧ ∃ e i, determine_kern (Externals := Sample.env_failing) i e 50 0
               (percent (Externals := Sample.env_failing) 40) = None.
Proof.
  pose proof (failed_Err (H := Sample.env_failing)
                (generate_kern_table_for_rise (H := Sample.env_failing) 0
                   Sample.ready)) as Hrun.
  specialize (Hrun ltac:(vm_compute; reflexivity)).
  destruct (generate_raises_only_if (H := Sample.env_failing) 0 Sample.ready
              _ Hrun) as (_ & Hkern & _).
  eexists. split; [exact Hrun|]. split; [exact Hkern|].
  exists "AINf1", "BEi1". reflexivity.
Defined.

Lemma ink_to_ink_memoized_witness :
  ∃ t s',
    ink_to_ink_at (H := Sample.env) 100 Sample.ready = Ok t s'
    ∧ ink_to_ink_at (H := Sample.env) 100 s' = Ok t s'
    ∧ t = 0%nat ∧ ff_routines s' = [0%nat].
Proof.
  destruct (succeeded_Ok (H := Sample.env)
              (ink_to_ink_at (H := Sample.env) 100 Sample.ready))
    as (t & Hrun); [vm_compute; reflexivity|].
  destruct (ink_to_ink_memoized (H := Sample.env) 100 Sample.ready t _ Hrun)
    as (_ & Hagain & Hfresh).
  destruct (Hfresh eq_refl) as [Ht Hff].
  eexists t, _. split; [exact Hrun|]. split; [exact Hagain|].
  split; [exact Ht|]. rewrite Hff, Ht. reflexivity.
Defined.

Lemma at_height_empty_band_witness :
  ∃ o, AtHeight_action (H := Sample.env) 300 200 "DotAvoidance" = Some [o]
       ∧ rules o = [] ∧ name o = "At_300_200_DotAvoidance".
Proof.
  assert (∃ routines,
            AtHeight_action (H := Sample.env) 300 200 "DotAvoidance"
            = Some routines) as [routines Hrun]
    by (eexists; vm_compute; reflexivity).
  destruct (at_height_empty_band (H := Sample.env) 300 200 "DotAvoidance"
              routines) as (o & Ho & Hrules & Hname & _); [lia|exact Hrun|].
  rewrite Ho in Hrun. exists o. split; [exact Hrun|]. split; [exact Hrules|].
  rewrite Hname. vm_compute. reflexivity.
Defined.

Lemma at_height_rule_iff_witness :
  ∃ o, AtHeight_action (H := Sample.env) 200 300 "DotAvoidance" = Some [o]
       ∧ Chaining [["ALIFu1"; "AINf1"; "BEf1"; "NUNf1"]; ["BEi1"; "JIMi1"]]
           [["BEm1"]; ["AINf1"; "BEf1"; "NUNf1"]]
           [Some [0%nat]; None] ∈ rules o.
Proof.
  assert (∃ routines,
            AtHeight_action (H := Sample.env) 200 300 "DotAvoidance"
            = Some routines) as [routines Hrun]
    by (eexists; vm_compute; reflexivity).
  destruct (at_height_rule_iff (H := Sample.env) 200 300 "DotAvoidance"
              routines
              (Chaining [["ALIFu1"; "AINf1"; "BEf1"; "NUNf1"];
                         ["BEi1"; "JIMi1"]]
                 [["BEm1"]; ["AINf1"; "BEf1"; "NUNf1"]]
                 [Some [0%nat]; None]) Hrun)
    as (o & t & ini & iso & medis & finas & bm & bf & Ho & Ht & Hini & Hiso
        & Hmedis & Hfinas & Hbm & Hbf & Hiff).
  rewrite Ho in Hrun. exists o. split; [exact Hrun|]. apply Hiff.
  vm_compute in Ht, Hini, Hiso, Hmedis, Hfinas.
  injection Ht as <-. injection Hini as <-. injection Hiso as <-.
  injection Hmedis as <-. injection Hfinas as <-.
  vm_compute in Hbm, Hbf. injection Hbm as <-. injection Hbf as <-.
  exists (["AINf1"; "BEf1"; "NUNf1"], 100), [(["BEm1"], 150)].
  split; [repeat constructor|]. split; [simpl; lia|].
  split; [repeat constructor|]. split; [vm_compute; split; discriminate|].
  reflexivity.
Defined.

Lemma at_height_wider_band_witness :
  ∃ o o',
    AtHeight_action (H := Sample.env) 200 300 "DotAvoidance" = Some [o]
    ∧ AtHeight_action (H := Sample.env) 0 900 "DotAvoidance" = Some [o']
    ∧ rules o `sublist_of` rules o'.
Proof.
  assert (∃ routines,
            AtHeight_action (H := Sample.env) 200 300 "DotAvoidance"
            = Some routines) as [routines Hrun]
    by (eexists; vm_compute; reflexivity).
  destruct (at_height_wider_band (H := Sample.env) 200 300 0 900
              "DotAvoidance" routines) as (o & o' & Ho & Hwide & Hsub);
    [lia|lia|exact Hrun|].
  rewrite Ho in Hrun. exists o, o'.
  split; [exact Hrun|]. split; [exact Hwide|exact Hsub].
Defined.
